(** * clubhouse-cli: the interactive story wizard of [src/index.ts]

    A shallow embedding of the wizard pipeline ([createSingleTicket],
    [createTickets], [getAutoCompleteChoices]) and the properties the
    specification states about it.

    Conventions of the embedding:
    - a JavaScript [number] that holds an identifier or a counter is a [Z];
      the model is exact for integers whose decimal rendering is plain
      digits (magnitude below 1e21), which covers every safe integer;
    - a JavaScript string is a [string] of 8-bit characters; case folding
      ([toLowerCase]) is the ASCII one, which is what the built-in does on
      ASCII text; properties that need more of the folding than that it is
      a function are stated for ASCII text only;
    - [null]/[undefined] inputs of type [string] are [option string];
      values of type [any] are [JSValue];
    - a promise is the trace of console/prompt events it produced together
      with its settlement ([Outcome]);
    - the session snapshot [state] is one shared mutable object: functions
      that touch it take the store and return the store. *)

From Stdlib Require Import ZArith Ascii String.
From stdpp Require Import base list sorting strings.

Local Open Scope Z_scope.

(** ** Strings *)

Module JSString.

Definition is_upper (c : ascii) : bool :=
  let n := N_of_ascii c in (65 <=? n)%N && (n <=? 90)%N.

Definition lower_char (c : ascii) : ascii :=
  if is_upper c then ascii_of_N (N_of_ascii c + 32) else c.

(** [String.prototype.toLowerCase]: exact on ASCII text, where the built-in
    turns [A]-[Z] into [a]-[z] character by character. Other characters
    are left as they are here, while the built-in folds every cased letter
    and depends on context for some of them. *)
Fixpoint toLowerCase (s : string) : string :=
  match s with
  | EmptyString => EmptyString
  | String c s' => String (lower_char c) (toLowerCase s')
  end.

Fixpoint all_chars (P : ascii → bool) (s : string) : bool :=
  match s with
  | EmptyString => true
  | String c s' => P c && all_chars P s'
  end.

(** Text made of ASCII characters only. *)
Definition ascii_only (s : string) : bool :=
  all_chars (fun c => (N_of_ascii c <? 128)%N) s.

(** [String.prototype.startsWith], the position test of [includes] *)
Fixpoint startsWith (s t : string) {struct t} : bool :=
  match t, s with
  | EmptyString, _ => true
  | String _ _, EmptyString => false
  | String b t', String a s' => if Ascii.eqb a b then startsWith s' t' else false
  end.

(** [String.prototype.includes]: does [t] occur in [s] at some position *)
Fixpoint includes (s t : string) : bool :=
  startsWith s t ||
  match s with
  | EmptyString => false
  | String _ s' => includes s' t
  end.

(** [t] occurs in [s] as a contiguous run of characters. *)
Definition substring_of (t s : string) : Prop :=
  ∃ pre post : string, s = pre +:+ t +:+ post.

(** [q] occurs in [name] when the case of letters is ignored. *)
Definition ci_contains (name q : string) : Prop :=
  substring_of (toLowerCase q) (toLowerCase name).

End JSString.

Import JSString.

(** ** Values of type [any] *)

(** The object literal [{ name: label.name }] ([ICreateLabel]). *)
Record ICreateLabel := { cl_name : string }.

Inductive JSValue :=
| VUndefined
| VNull
| VBool (b : bool)
| VString (s : string)
| VNumber (n : Z)
| VLabel (l : ICreateLabel).

(** [isNullOrUndefined] of node's [util] *)
Definition isNullOrUndefined (v : JSValue) : bool :=
  match v with
  | VUndefined | VNull => true
  | _ => false
  end.

(** [inquirer.objects.ChoiceOption] *)
Record ChoiceOption := { name : string; value : JSValue }.

#[global] Instance ICreateLabel_eq_dec : EqDecision ICreateLabel.
Proof. solve_decision. Defined.
#[global] Instance JSValue_eq_dec : EqDecision JSValue.
Proof. solve_decision. Defined.
#[global] Instance ChoiceOption_eq_dec : EqDecision ChoiceOption.
Proof. solve_decision. Defined.

(** ** The choice resolver *)

(** [getAutoCompleteChoices(input, data)]; the returned promise is already
    resolved, so the model is its value. *)
Definition getAutoCompleteChoices (input : option string) (data : list ChoiceOption)
  : list ChoiceOption :=
  match input with
  | None => data
  | Some q =>
      List.filter (fun item => includes (toLowerCase (name item)) (toLowerCase q)) data
  end.

(** [selected P l r]: [r] is [l] with exactly the items that do not
    satisfy [P] left out, the others in their places. *)
Inductive selected {A} (P : A → Prop) : list A → list A → Prop :=
| selected_nil : selected P [] []
| selected_keep x l r : P x → selected P l r → selected P (x :: l) (x :: r)
| selected_drop x l r : ¬ P x → selected P l r → selected P (x :: l) r.

(** ** Numbers and their decimal text *)

Module JSNumber.

Definition digit_char (d : N) : ascii := ascii_of_N (48 + d).

(** Decimal digits of [n], most significant first, pushed in front of
    [acc]; [fuel] bounds the number of divisions by ten. *)
Fixpoint digits_go (fuel : nat) (n : N) (acc : string) : string :=
  let acc' := String (digit_char (n mod 10)) acc in
  match fuel with
  | O => acc'
  | S fuel' => if (n / 10 =? 0)%N then acc' else digits_go fuel' (n / 10) acc'
  end.

Definition N_toString (n : N) : string :=
  digits_go (N.to_nat (N.log2 n)) n EmptyString.

(** [Number.prototype.toString()] on an integer *)
Definition toString (z : Z) : string :=
  match z with
  | Z0 => N_toString 0
  | Zpos p => N_toString (Npos p)
  | Zneg p => String "-" (N_toString (Npos p))
  end.

(** The result of [parseInt]: a number or [NaN]. *)
Inductive t := NaN | Num (z : Z).

Definition is_digit (c : ascii) : bool :=
  let n := N_of_ascii c in (48 <=? n)%N && (n <=? 57)%N.

Definition digit_value (c : ascii) : Z := Z.of_N (N_of_ascii c) - 48.

(** White space skipped by [parseInt]: TAB, LF, VT, FF, CR, SP, NBSP. *)
Definition is_whitespace (c : ascii) : bool :=
  let n := N_of_ascii c in
  ((9 <=? n)%N && (n <=? 13)%N) || (n =? 32)%N || (n =? 160)%N.

Fixpoint trimStart (s : string) : string :=
  match s with
  | EmptyString => EmptyString
  | String c s' => if is_whitespace c then trimStart s' else s
  end.

(** Value of the longest prefix of decimal digits, continuing from [acc]. *)
Fixpoint digits_value (acc : Z) (s : string) : Z :=
  match s with
  | EmptyString => acc
  | String c s' =>
      if is_digit c then digits_value (10 * acc + digit_value c) s' else acc
  end.

Definition starts_with_digit (s : string) : bool :=
  match s with
  | EmptyString => false
  | String c _ => is_digit c
  end.

(** [parseInt(s, 10)] on a string: skip white space, read a sign, read
    digits up to the first character that is not one; [NaN] without a
    digit. With radix 10 no [0x] prefix is recognised. *)
Definition parseInt10 (s : string) : t :=
  let s1 := trimStart s in
  let '(sign, s2) :=
    match s1 with
    | String c r =>
        if Ascii.eqb c "-" then (-1, r)
        else if Ascii.eqb c "+" then (1, r)
        else (1, s1)
    | EmptyString => (1, s1)
    end in
  if starts_with_digit s2 then Num (sign * digits_value 0 s2) else NaN.

End JSNumber.

(** [ToString] of a value of type [any], as [parseInt] and template
    literals apply it. *)
Definition JSValue_toString (v : JSValue) : string :=
  match v with
  | VUndefined => "undefined"
  | VNull => "null"
  | VBool true => "true"
  | VBool false => "false"
  | VString s => s
  | VNumber n => JSNumber.toString n
  | VLabel _ => "[object Object]"
  end.

Definition parseInt (v : JSValue) : JSNumber.t :=
  JSNumber.parseInt10 (JSValue_toString v).

(** ** The workspace snapshot *)

(** Modelled from the spec: the interfaces [IProject], [ITeam], [IEpic],
    [ILabel], the user objects, [IConfiguration] and [IClubhouseState] are
    declared in [./clubhouse] and [./configuration], which are not part of
    the sources; the fields are those the spec's data model lists and
    [index.ts] reads. *)
Record IProject := { p_id : Z; p_name : string; p_team_id : Z }.
Record ITeam := { t_id : Z; t_name : string }.
Record IEpic := { e_id : Z; e_name : string }.
Record IUser := { u_id : string; u_profile_name : string }.
Record ILabel := { l_name : string }.
Record IConfiguration := { token : string; defaultProjectId : Z }.

Record IClubhouseState := {
  projects : list IProject;
  epics : list IEpic;
  teams : list ITeam;
  users : list IUser;
  sprints : list ILabel;
  configuration : IConfiguration
}.

#[global] Instance IProject_eq_dec : EqDecision IProject.
Proof. solve_decision. Defined.

(** The assignment that [Array.prototype.sort] performs on the array object
    that [state.projects] refers to. *)
Definition set_projects (ps : list IProject) (state : IClubhouseState) : IClubhouseState :=
  {| projects := ps; epics := epics state; teams := teams state;
     users := users state; sprints := sprints state;
     configuration := configuration state |}.

(** ** Array methods *)

Module JSArray.

Section Methods.
Context {A : Type}.

(** One insertion step of a stable sort: [x] goes in front of the first
    element it does not compare greater than. *)
Fixpoint insert_sorted (cmp : A → A → Z) (x : A) (l : list A) : list A :=
  match l with
  | [] => [x]
  | y :: l' => if cmp x y <=? 0 then x :: l else y :: insert_sorted cmp x l'
  end.

(** [Array.prototype.sort(cmp)]: a stable sort (ECMAScript 2019); every
    stable sort computes the same array, here by insertion from the right. *)
Definition sort (cmp : A → A → Z) (l : list A) : list A :=
  foldr (insert_sorted cmp) [] l.

(** [Array.prototype.find]: the first element satisfying [f], or
    [undefined] ([None]). *)
Fixpoint find (f : A → bool) (l : list A) : option A :=
  match l with
  | [] => None
  | x :: l' => if f x then Some x else find f l'
  end.

Fixpoint findIndex_from (f : A → bool) (i : Z) (l : list A) : Z :=
  match l with
  | [] => -1
  | x :: l' => if f x then i else findIndex_from f (i + 1) l'
  end.

(** [Array.prototype.findIndex]: the first index satisfying [f], or [-1]. *)
Definition findIndex (f : A → bool) (l : list A) : Z := findIndex_from f 0 l.

End Methods.

End JSArray.

(** ** External libraries *)

(** The styling functions of [chalk]; each wraps its argument in terminal
    escape codes, or returns it unchanged when colours are off. *)
Class Chalk := {
  chalk_red : string → string;
  chalk_green : string → string;
  chalk_blue : string → string;
  chalk_bold : string → string;
  chalk_underline : string → string
}.

(** [chalk] with colour support disabled. *)
Definition plain_chalk : Chalk :=
  {| chalk_red s := s; chalk_green s := s; chalk_blue s := s;
     chalk_bold s := s; chalk_underline s := s |}.

(** The [slug] function of the npm package of that name. *)
Class Slug := slug : string → string.

Module AsciiSlug.

(** A slug function to run sample sessions with: letters, digits, [_] and
    [~] are kept, runs of white space and hyphens become one hyphen, every
    other character is removed, and no hyphen is left at either end. On
    text with symbols, leading hyphens or letters outside ASCII the
    package does otherwise (it transliterates through its tables). *)
Definition is_word (c : ascii) : bool :=
  let n := N_of_ascii c in
  ((48 <=? n)%N && (n <=? 57)%N) || ((65 <=? n)%N && (n <=? 90)%N) ||
  ((97 <=? n)%N && (n <=? 122)%N) || (n =? 95)%N || (n =? 126)%N.

Definition is_separator (c : ascii) : bool :=
  JSNumber.is_whitespace c || (N_of_ascii c =? 45)%N.

(** [pending] records that a separator run was crossed since the last kept
    character; [started] that a character was kept already. *)
Fixpoint go (started pending : bool) (s : string) : string :=
  match s with
  | EmptyString => EmptyString
  | String c s' =>
      if is_word c then
        if started && pending then String "-" (String c (go true false s'))
        else String c (go true false s')
      else if is_separator c then go started true s'
      else go started pending s'
  end.

Definition ascii_slug : Slug := go false false.

End AsciiSlug.

Module PlainSlug.

(** Plain text: ASCII letters, digits and spaces. On it the package's
    result follows from its algorithm alone, none of its character tables
    applies: every character passes the filter of allowed characters, the
    ends are trimmed, and each run of spaces becomes one hyphen. *)
Definition is_plain (c : ascii) : bool :=
  let n := N_of_ascii c in
  ((48 <=? n)%N && (n <=? 57)%N) || ((65 <=? n)%N && (n <=? 90)%N) ||
  ((97 <=? n)%N && (n <=? 122)%N) || (n =? 32)%N.

Definition plain (s : string) : bool := all_chars is_plain s.

Definition is_space (c : ascii) : bool := (N_of_ascii c =? 32)%N.

Fixpoint trimStart (s : string) : string :=
  match s with
  | EmptyString => EmptyString
  | String c s' => if is_space c then trimStart s' else s
  end.

Fixpoint trimEnd (s : string) : string :=
  match s with
  | EmptyString => EmptyString
  | String c s' =>
      match trimEnd s' with
      | EmptyString => if is_space c then EmptyString else String c EmptyString
      | r => String c r
      end
  end.

(** [result.replace(/^\s+|\s+$/g, '')] *)
Definition trim (s : string) : string := trimEnd (trimStart s).

(** [result.replace(/[-\s]+/g, '-')] on plain text; [in_run] tells that the
    previous character was a space. *)
Fixpoint collapse (in_run : bool) (s : string) : string :=
  match s with
  | EmptyString => EmptyString
  | String c s' =>
      if is_space c then
        if in_run then collapse true s' else String "-" (collapse true s')
      else String c (collapse false s')
  end.

(** The package's slug of a plain text, before any change of case. *)
Definition hyphenate (s : string) : string := collapse false (trim s).

(** The characters of a lower-case branch segment: [a]-[z], digits, [-]. *)
Definition branch_safe (c : ascii) : bool :=
  let n := N_of_ascii c in
  ((48 <=? n)%N && (n <=? 57)%N) || ((97 <=? n)%N && (n <=? 122)%N) || (n =? 45)%N.

End PlainSlug.

(** What is taken of the package: on plain text its slug, lower-cased, is
    the lower-cased [hyphenate] (whether or not the version at hand
    lower-cases by itself). *)
Class SlugPlain `{Slug} :=
  slug_plain : ∀ s, PlainSlug.plain s = true →
                    toLowerCase (slug s) = toLowerCase (PlainSlug.hyphenate s).

(** The slug function that is [hyphenate] everywhere. *)
Definition plain_slug : Slug := PlainSlug.hyphenate.

(** ** The question pipeline *)

(** The result of a [validate] callback: [true] or the violation message. *)
Inductive Validation := Valid | Invalid (message : string).

Inductive QuestionType := TAutocomplete | TInput | TEditor | TList | TConfirm.

(** A [source] callback closes over the shared [state] object: it runs
    against the store as it is at the time of the call and may leave it
    changed. It returns the choices its promise resolves with, or [None]
    when evaluating it throws a [TypeError]. *)
Definition Source : Type :=
  IClubhouseState → option string → IClubhouseState * option (list ChoiceOption).

(** [inquirer.Question]; absent properties are [None] or the empty list. *)
Record Question := {
  q_type : QuestionType;
  q_name : string;
  q_message : string;
  q_default : option JSValue;
  q_source : option Source;
  q_validate : option (option string → Validation);
  q_choices : list string
}.

(** The body of the [map] callback of the project prompt: the option of one
    project; [None] when [find] yields [undefined], whose [name] cannot be
    read. *)
Definition project_choice (teams : list ITeam) (project : IProject) : option ChoiceOption :=
  match JSArray.find (fun team => t_id team =? p_team_id project) teams with
  | Some team =>
      Some {| name := p_name project +:+ " (" +:+ t_name team +:+ ")";
              value := VString (JSNumber.toString (p_id project)) |}
  | None => None
  end.

Definition by_team_id (p1 p2 : IProject) : Z := p_team_id p1 - p_team_id p2.

(** [source] of the project prompt. [sort] reorders the array that
    [state.projects] refers to and returns that same array. *)
Definition project_source : Source := fun state input =>
  let sorted := JSArray.sort by_team_id (projects state) in
  let state := set_projects sorted state in
  (state,
   match mapM (project_choice (teams state)) sorted with
   | Some projects => Some (getAutoCompleteChoices input projects)
   | None => None
   end).

(** [source] of the epic prompt *)
Definition epic_source : Source := fun state input =>
  let epics :=
    map (fun epic => {| name := e_name epic;
                        value := VString (JSNumber.toString (e_id epic)) |})
        (epics state) in
  (state, Some (getAutoCompleteChoices input epics)).

(** The options of the owner prompt *)
Definition do_not_assign : ChoiceOption := {| name := "Do not assign"; value := VNull |}.

Definition user_choice (user : IUser) : ChoiceOption :=
  {| name := u_profile_name user; value := VString (u_id user) |}.

(** [source] of the owner prompt; [unshift] acts on the array [map] made. *)
Definition owner_source : Source := fun state input =>
  let users := map user_choice (users state) in
  let users := do_not_assign :: users in
  (state, Some (getAutoCompleteChoices input users)).

(** The options of the labels prompt *)
Definition no_label : ChoiceOption := {| name := "No Label"; value := VNull |}.

Definition label_choice (label : ILabel) : ChoiceOption :=
  {| name := l_name label; value := VLabel {| cl_name := l_name label |} |}.

(** [source] of the labels prompt *)
Definition labels_source : Source := fun state input =>
  let labels := map label_choice (sprints state) ++ [no_label] in
  (state, Some (getAutoCompleteChoices input labels)).

Definition project_default (state : IClubhouseState) : Z :=
  JSArray.findIndex (fun project => p_id project =? defaultProjectId (configuration state))
                    (projects state).

Definition validate_project (input : option string) : Validation :=
  match input with
  | None => Invalid "A story must be assigned to a project"
  | Some _ => Valid
  end.

Definition validate_title (input : option string) : Validation :=
  match input with
  | None => Invalid "Title should be more than 5 characters long"
  | Some input =>
      if Z.of_nat (String.length input) <? 5
      then Invalid "Title should be more than 5 characters long"
      else if Z.of_nat (String.length input) >? 120
      then Invalid "Title should not be longer than 120 characters"
      else Valid
  end.

Definition validate_description (input : option string) : Validation :=
  match input with
  | None => Invalid "Description should be more than 5 characters long"
  | Some input =>
      if Z.of_nat (String.length input) <? 5
      then Invalid "Description should be more than 5 characters long"
      else Valid
  end.

(** The array [questions] that [createSingleTicket] builds. The [default]
    properties are computed here, from the store as it is when the array
    literal is evaluated; the [source] callbacks run later. *)
Definition questions (state : IClubhouseState) : list Question :=
  [ {| q_type := TAutocomplete; q_name := "project";
       q_message := "Which project does this story belong to: ";
       q_default := Some (VNumber (project_default state));
       q_source := Some project_source;
       q_validate := Some validate_project; q_choices := [] |};
    {| q_type := TAutocomplete; q_name := "epic";
       q_message := "Which epic to assign this story to: ";
       q_default := Some (VNumber (Z.of_nat (length (epics state))));
       q_source := Some epic_source;
       q_validate := None; q_choices := [] |};
    {| q_type := TInput; q_name := "title";
       q_message := "Title for this story (short and descriptive): ";
       q_default := None; q_source := None;
       q_validate := Some validate_title; q_choices := [] |};
    {| q_type := TEditor; q_name := "description";
       q_message := "A concise description for this story, markdown is supported: ";
       q_default := None; q_source := None;
       q_validate := Some validate_description; q_choices := [] |};
    {| q_type := TList; q_name := "storyType";
       q_message := "What type of work is this: ";
       q_default := Some (VNumber 0); q_source := None;
       q_validate := None; q_choices := ["feature"; "bug"; "chore"] |};
    {| q_type := TAutocomplete; q_name := "owner";
       q_message := "Which user to assign this story to: ";
       q_default := None; q_source := Some owner_source;
       q_validate := None; q_choices := [] |};
    {| q_type := TAutocomplete; q_name := "labels";
       q_message := "Which sprint to put this story in: ";
       q_default := Some (VNumber (Z.of_nat (length (sprints state))));
       q_source := Some labels_source;
       q_validate := None; q_choices := [] |} ].

(** The options the project prompt displays before anything is typed. *)
Definition displayed_projects (state : IClubhouseState) : option (list ChoiceOption) :=
  snd (project_source state None).

(** Index, in the displayed option list, of the option that stands for the
    project whose id is [configuration.defaultProjectId]; [-1] when no
    option does. *)
Definition displayed_index_of_default (state : IClubhouseState) : option Z :=
  match displayed_projects state with
  | Some options =>
      Some (JSArray.findIndex
              (fun option =>
                 bool_decide (value option =
                   VString (JSNumber.toString (defaultProjectId (configuration state)))))
              options)
  | None => None
  end.

(** ** Submission *)

(** The answers object [res] that [inquirer.prompt] resolves with. *)
Record Answers := {
  a_project : JSValue;
  a_epic : JSValue;
  a_title : string;
  a_description : string;
  a_storyType : string;
  a_owner : JSValue;
  a_labels : JSValue
}.

(** Modelled from the spec: [IStory] is declared in [./clubhouse], which is
    not part of the sources; the fields are those [index.ts] writes and
    reads. [s_id] is [None] on the request literal, which has no [id]. *)
Record IStory := {
  s_id : option Z;
  s_name : string;
  s_description : string;
  s_owner_ids : option (list JSValue);
  s_project_id : JSNumber.t;
  s_epic_id : JSValue;
  s_labels : option (list JSValue);
  s_story_type : string
}.

(** Modelled from the spec: the creation API "fails with an error object
    carrying a response payload"; the handler reads its [body]. *)
Record ErrorObject := { body : JSValue }.

(** The object literal passed to [createStory]. *)
Definition story_request (res : Answers) : IStory :=
  {| s_id := None;
     s_name := a_title res;
     s_description := a_description res;
     s_owner_ids := if isNullOrUndefined (a_owner res) then None else Some [a_owner res];
     s_project_id := parseInt (a_project res);
     s_epic_id := a_epic res;
     s_labels := if isNullOrUndefined (a_labels res) then None else Some [a_labels res];
     s_story_type := a_storyType res |}.

(** [`${id}`] for [story.id] *)
Definition id_text (id : option Z) : string :=
  match id with
  | Some n => JSNumber.toString n
  | None => "undefined"
  end.

(** [gitCmd] of the success callback *)
Definition gitCmd `{Slug} (story : IStory) : string :=
  let id := s_id story in
  let storySlug := toLowerCase (slug (s_name story)) in
  "git checkout -b " +:+ s_story_type story +:+ "/ch" +:+ id_text id +:+ "/" +:+ storySlug.

(** ** Promises and what they print *)

Inductive Event :=
| console_info (text : string)
| console_error (text : string)
| console_error_value (v : JSValue)
| prompt_questions (names : list string)
| prompt_confirm (message : string) (default : bool)
| createStory_call (token : string) (request : IStory)
| clipboard_writeSync (text : string).

(** Why a promise was rejected: the creation API's error object, or an
    exception thrown while a callback ran (a [TypeError] of the language,
    or the error [clipboardy] throws when it cannot write). *)
Inductive Reason :=
| ApiError (err : ErrorObject)
| TypeError
| ClipboardError.

(** [err.body] in the [catch] callback; an exception object has no [body]. *)
Definition reason_body (r : Reason) : JSValue :=
  match r with
  | ApiError err => body err
  | TypeError => VUndefined
  | ClipboardError => VUndefined
  end.

Inductive Outcome (A : Type) :=
| Pending
| Resolved (a : A)
| Rejected (r : Reason).
Arguments Pending {A}.
Arguments Resolved {A} a.
Arguments Rejected {A} r.

(** A promise, seen from outside: what was printed and shown on the way,
    and how it settled. *)
Definition Promise (A : Type) : Type := list Event * Outcome A.

Definition resolve {A} (a : A) : Promise A := ([], Resolved a).

Definition emit (e : Event) : Promise () := ([e], Resolved ()).

(** A statement of a callback that throws: the callback's promise is
    rejected and the rest of the callback does not run. *)
Definition throw {A} (r : Reason) : Promise A := ([], Rejected r).

(** [writeSync(text)] of [clipboardy]: the text is on the clipboard, or the
    call throws (no clipboard utility, no display) and nothing is. *)
Definition writeSync (text : string) (throws : bool) : Promise () :=
  if throws then throw ClipboardError else emit (clipboard_writeSync text).

(** [p.then(f)] *)
Definition then_ {A B} (p : Promise A) (f : A → Promise B) : Promise B :=
  match p with
  | (tr, Resolved a) => let '(tr', o) := f a in (tr ++ tr', o)
  | (tr, Rejected r) => (tr, Rejected r)
  | (tr, Pending) => (tr, Pending)
  end.

(** [p.catch(h)] *)
Definition catch_ {A} (p : Promise A) (h : Reason → Promise A) : Promise A :=
  match p with
  | (tr, Rejected r) => let '(tr', o) := h r in (tr ++ tr', o)
  | _ => p
  end.

Notation "p ;;; q" := (then_ p (fun _ => q))
  (at level 100, right associativity, only parsing).

(** ** The user and the service *)

(** What happens from outside during one pass of the wizard: what the user
    types into each autocomplete prompt (one entry per keystroke, the
    search box's text), the answers the prompts end with, the settlement of
    the creation call, whether the clipboard write throws, and the reply
    to "Create another ticket". *)
Record Interaction := {
  typed : string → list string;
  answers : Answers;
  api_result : IStory + ErrorObject;
  clipboard_throws : bool;
  doOneMore : bool
}.

(** An autocomplete prompt evaluates its [source] once when it is shown,
    with no input, and once per change of the search text. The calls run
    one after the other against the shared store; the first that throws
    ends the prompt. *)
Fixpoint run_source (src : Source) (state : IClubhouseState) (inputs : list (option string))
  : IClubhouseState * bool :=
  match inputs with
  | [] => (state, true)
  | input :: inputs' =>
      match src state input with
      | (state', Some _) => run_source src state' inputs'
      | (state', None) => (state', false)
      end
  end.

(** [inquirer.prompt(questions)]: the questions are asked in order. *)
Fixpoint ask (qs : list Question) (state : IClubhouseState) (it : Interaction)
  : IClubhouseState * bool :=
  match qs with
  | [] => (state, true)
  | q :: qs' =>
      match q_source q with
      | None => ask qs' state it
      | Some src =>
          match run_source src state (None :: map Some (typed it (q_name q))) with
          | (state', true) => ask qs' state' it
          | (state', false) => (state', false)
          end
      end
  end.

Definition inquirer_prompt (qs : list Question) (state : IClubhouseState)
  (user : option Interaction) : IClubhouseState * Promise Answers :=
  let shown := prompt_questions (map q_name qs) in
  match user with
  | None => (state, ([shown], Pending))
  | Some it =>
      match ask qs state it with
      | (state', true) => (state', ([shown], Resolved (answers it)))
      | (state', false) => (state', ([shown], Rejected TypeError))
      end
  end.

(** [createStory(token, request)], the external creation call *)
Definition createStory (token : string) (request : IStory) (result : IStory + ErrorObject)
  : Promise IStory :=
  ([createStory_call token request],
   match result with
   | inl story => Resolved story
   | inr err => Rejected (ApiError err)
   end).

Section Wizard.
Context `{Chalk} `{Slug}.

Definition link (msg : string) : string := chalk_blue (chalk_underline msg).

(** The callback of [createStory(...).then]; the created story is the value
    [Some story]. When [writeSync] throws, the callback ends there and its
    promise is rejected. *)
Definition on_created (throws : bool) (story : IStory) : Promise (option IStory) :=
  let id := s_id story in
  emit (console_info (chalk_green ("Successfully created a story with id " +:+ id_text id))) ;;;
  emit (console_info ("You can view your story at " +:+
                      link ("https://app.clubhouse.io/story/" +:+ id_text id))) ;;;
  emit (console_info ("To start working on this story (copied to clipboard): " +:+
                      chalk_bold (gitCmd story))) ;;;
  writeSync (gitCmd story) throws ;;;
  resolve (Some story).

(** The callback of [.catch]; it returns nothing, so the promise resolves
    with [undefined] ([None]). *)
Definition on_error (r : Reason) : Promise (option IStory) :=
  emit (console_error (chalk_red "There was an error processing your request")) ;;;
  emit (console_error_value (reason_body r)) ;;;
  resolve None.

(** The callback of [inquirer.prompt(questions).then]; [.catch] is chained
    after [.then], so it also receives what the success callback throws. *)
Definition submit (state : IClubhouseState) (result : IStory + ErrorObject) (throws : bool)
  (res : Answers) : Promise (option IStory) :=
  catch_ (then_ (createStory (token (configuration state)) (story_request res) result)
                (on_created throws))
         on_error.

Definition createSingleTicket (state : IClubhouseState) (user : option Interaction)
  : IClubhouseState * Promise (option IStory) :=
  let questions := questions state in
  let '(state', prompted) := inquirer_prompt questions state user in
  (state',
   then_ prompted (fun res =>
     match user with
     | Some it => submit state' (api_result it) (clipboard_throws it) res
     | None => ([], Pending)
     end)).

Definition banner (idx : Z) : string :=
  String "010" "Creating ticket #" +:+ chalk_bold (JSNumber.toString idx).

(** [createTickets(state, idx)]: everything the session prints and shows,
    for a user who goes through [script] and then stops answering. *)
Fixpoint createTickets (state : IClubhouseState) (idx : Z) (script : list Interaction)
  : list Event :=
  console_info (banner idx) ::
  match script with
  | [] => fst (snd (createSingleTicket state None))
  | it :: script' =>
      let '(state', (tr, settled)) := createSingleTicket state (Some it) in
      tr ++
      match settled with
      | Resolved createdStory =>
          prompt_confirm "Create another ticket: " true ::
          (if doOneMore it then createTickets state' (idx + 1) script' else [])
      | _ => []
      end
  end.

(** The store and the index with which the session starts pass number [k]
    of [script] (counting from 0), if it gets there. *)
Fixpoint pass_start (state : IClubhouseState) (idx : Z) (script : list Interaction) (k : nat)
  {struct k} : option (IClubhouseState * Z) :=
  match k, script with
  | O, _ => Some (state, idx)
  | S k', it :: script' =>
      match createSingleTicket state (Some it) with
      | (state', (_, Resolved _)) =>
          if doOneMore it then pass_start state' (idx + 1) script' k' else None
      | _ => None
      end
  | S _, [] => None
  end.

End Wizard.

(** ** Predicates on the snapshot *)

(** The order [sort] establishes with the comparator [by_team_id]. *)
Definition team_le (p q : IProject) : Prop := p_team_id p <= p_team_id q.

(** Every project's [team_id] is the [id] of a team of the snapshot. *)
Definition teams_cover (state : IClubhouseState) : Prop :=
  Forall (fun project => Exists (fun team => t_id team = p_team_id project) (teams state))
         (projects state).

(** ** Sample data *)

Definition no_teams_state : IClubhouseState :=
  {| projects := [ {| p_id := 7; p_name := "Web"; p_team_id := 3 |} ];
     epics := []; teams := []; users := []; sprints := [];
     configuration := {| token := "t"; defaultProjectId := 7 |} |}.

Definition two_projects_state : IClubhouseState :=
  {| projects := [ {| p_id := 1; p_name := "A"; p_team_id := 2 |};
                   {| p_id := 2; p_name := "B"; p_team_id := 1 |} ];
     epics := [ {| e_id := 5; e_name := "Onboarding" |} ];
     teams := [ {| t_id := 1; t_name := "T1" |}; {| t_id := 2; t_name := "T2" |} ];
     users := [ {| u_id := "u-1"; u_profile_name := "Ada" |} ];
     sprints := [ {| l_name := "Sprint 9" |} ];
     configuration := {| token := "t"; defaultProjectId := 1 |} |}.

Definition answers_with (project owner labels : JSValue) : Answers :=
  {| a_project := project; a_epic := VString "5"; a_title := "Fix Login Bug";
     a_description := "Users cannot log in"; a_storyType := "bug";
     a_owner := owner; a_labels := labels |}.

Definition created_story : IStory :=
  {| s_id := Some 42; s_name := "Fix Login Bug"; s_description := "Users cannot log in";
     s_owner_ids := None; s_project_id := JSNumber.Num 1; s_epic_id := VNull;
     s_labels := None; s_story_type := "bug" |}.

Definition rejecting_pass : Interaction :=
  {| typed := fun _ => ["a"];
     answers := answers_with (VString "1") VNull VNull;
     api_result := inr {| body := VString "Unprocessable" |};
     clipboard_throws := false;
     doOneMore := false |}.

Definition created_pass : Interaction :=
  {| typed := fun _ => [];
     answers := answers_with (VString "2") (VString "u-1") VNull;
     api_result := inl created_story;
     clipboard_throws := false;
     doOneMore := true |}.

Definition clipboard_failing_pass : Interaction :=
  {| typed := fun _ => [];
     answers := answers_with (VString "2") (VString "u-1") VNull;
     api_result := inl created_story;
     clipboard_throws := true;
     doOneMore := true |}.

(** ** Measures of a session *)

(** The snapshot after the project prompt was displayed: the project array
    sorted by team, everything else as before. *)
Definition sorted_snapshot (state : IClubhouseState) : IClubhouseState :=
  set_projects (JSArray.sort by_team_id (projects state)) state.

Definition is_createStory_call (e : Event) : bool :=
  match e with
  | createStory_call _ _ => true
  | _ => false
  end.

Definition is_prompt_confirm (e : Event) : bool :=
  match e with
  | prompt_confirm _ _ => true
  | _ => false
  end.

Definition count_events (f : Event → bool) (tr : list Event) : nat :=
  length (List.filter f tr).

(** The number of passes a user who follows [script] goes through: one more
    after each "yes". *)
Fixpoint passes_run (script : list Interaction) : nat :=
  match script with
  | [] => O
  | it :: script' => S (if doOneMore it then passes_run script' else O)
  end.

(** The names [inquirer.prompt] is given by [createSingleTicket]. *)
Definition question_names : list string :=
  ["project"; "epic"; "title"; "description"; "storyType"; "owner"; "labels"].

(** ** Start-up *)

(** Modelled from the spec: [loadConfiguration], [doInstall] and [getState]
    are declared in [./configuration], [./install] and [./clubhouse], which
    are not part of the sources. A run is described by what they give:
    the [loaded] flag and [errorMsg] of the loaded configuration, the
    configuration itself, the configuration [doInstall] resolves with
    ([None] when it rejects), and the snapshot [getState] resolves with
    for a configuration ([None] when it rejects). What the three print or
    ask themselves is not part of a run's trace. *)
Record Startup := {
  loaded : bool;
  errorMsg : string;
  loaded_configuration : IConfiguration;
  doInstall_result : option IConfiguration;
  getState_result : IConfiguration → option IClubhouseState
}.

(** The snapshot the wizard is started with, if any. *)
Definition fetched_snapshot (env : Startup) : option IClubhouseState :=
  if loaded env then getState_result env (loaded_configuration env)
  else doInstall_result env ≫= getState_result env.

Section Main.
Context `{Chalk} `{Slug}.
Variable chalk_yellow : string → string.

(** [promise.then(createTickets)]: the session starts, with [idx] at its
    default 1, when the promise resolves; a rejection is not handled. *)
Definition then_createTickets (fetched : option IClubhouseState) (script : list Interaction)
  : list Event :=
  match fetched with
  | Some state => createTickets state 1 script
  | None => []
  end.

(** [main()]: everything a run prints and shows. *)
Definition main (env : Startup) (script : list Interaction) : list Event :=
  if negb (loaded env) then
    [ console_error (chalk_red (errorMsg env));
      console_info (chalk_yellow "You must first configure the CLI");
      console_info "The most important part is an API token.";
      console_info ("To get one, login to your clubhouse account " +:+ "and visit " +:+
                    link "https://app.clubhouse.io/settings/account/api-tokens") ] ++
    then_createTickets (doInstall_result env ≫= getState_result env) script
  else
    then_createTickets (getState_result env (loaded_configuration env)) script.

End Main.

(** * Properties *)

(** ** Strings *)

Lemma append_nil_l (s : string) : EmptyString +:+ s = s.
Proof. reflexivity. Qed.

Lemma append_cons (a : ascii) (s t : string) : String a s +:+ t = String a (s +:+ t).
Proof. reflexivity. Qed.

Lemma startsWith_spec (s t : string) :
  startsWith s t = true ↔ ∃ post, s = t +:+ post.
Proof.
  revert s. induction t as [|b t IH]; intros s; simpl.
  - split; [intros _; by exists s | done].
  - destruct s as [|a s].
    + split; [done | intros [post Hpost]; discriminate].
    + destruct (Ascii.eqb_spec a b) as [->|Hne].
      * rewrite IH. split; intros [post Hpost]; exists post.
        -- rewrite append_cons. congruence.
        -- rewrite append_cons in Hpost. congruence.
      * split; [done | intros [post Hpost]].
        rewrite append_cons in Hpost. congruence.
Qed.

Lemma includes_spec (s t : string) :
  includes s t = true ↔ substring_of t s.
Proof.
  unfold substring_of. induction s as [|a s IH].
  - cbn [includes]. rewrite orb_false_r, startsWith_spec. split.
    + intros [post Hpost]. by exists EmptyString, post.
    + intros ([|c pre] & post & Hs); [by exists post | discriminate].
  - cbn [includes]. rewrite orb_true_iff, startsWith_spec, IH. split.
    + intros [[post Hpost] | (pre & post & Hs)].
      * by exists EmptyString, post.
      * exists (String a pre), post. by rewrite append_cons, Hs.
    + intros ([|c pre] & post & Hs).
      * left. by exists post.
      * right. exists pre, post. rewrite append_cons in Hs. congruence.
Qed.

Lemma includes_false (s t : string) :
  includes s t = false ↔ ¬ substring_of t s.
Proof. rewrite <- includes_spec. by destruct (includes s t). Qed.

(** ** Decimal text of numbers *)

Module NumberFacts.
Import JSNumber.

Lemma N_of_digit_char (d : N) : (d < 10)%N → N_of_ascii (digit_char d) = (48 + d)%N.
Proof.
  intros Hd. unfold digit_char. apply N_ascii_embedding. lia.
Qed.

Lemma is_digit_digit_char (d : N) : (d < 10)%N → is_digit (digit_char d) = true.
Proof.
  intros Hd. unfold is_digit. rewrite N_of_digit_char by done.
  apply andb_true_iff. split; apply N.leb_le; lia.
Qed.

Lemma digit_value_digit_char (d : N) : (d < 10)%N → digit_value (digit_char d) = Z.of_N d.
Proof.
  intros Hd. unfold digit_value. rewrite N_of_digit_char by done. lia.
Qed.

Lemma digits_value_push (a : Z) (d : N) (rest : string) :
  (d < 10)%N →
  digits_value a (String (digit_char d) rest) = digits_value (10 * a + Z.of_N d) rest.
Proof.
  intros Hd. cbn [digits_value].
  by rewrite is_digit_digit_char, digit_value_digit_char.
Qed.

Lemma digits_go_value (fuel : nat) : ∀ (n : N) (rest : string),
  (n < 2 ^ N.of_nat (S fuel))%N →
  ∃ k : Z, ∀ a : Z,
    digits_value a (digits_go fuel n rest) = digits_value (a * k + Z.of_N n) rest.
Proof.
  induction fuel as [|fuel IH]; intros n rest Hn.
  - exists 10. intros a. cbn [digits_go].
    change (2 ^ N.of_nat 1)%N with 2%N in Hn.
    rewrite digits_value_push by (apply N.mod_lt; lia).
    rewrite N.mod_small by lia. f_equal. lia.
  - cbn [digits_go]. destruct (N.eqb_spec (n / 10) 0) as [Hz|Hnz].
    + exists 10. intros a.
      rewrite digits_value_push by (apply N.mod_lt; lia).
      f_equal. pose proof (N.div_mod n 10). lia.
    + destruct (IH (n / 10)%N (String (digit_char (n mod 10)) rest)) as [k Hk].
      { rewrite Nat2N.inj_succ, N.pow_succ_r' in Hn.
        assert (n / 10 <= n / 2)%N by (apply N.div_le_compat_l; lia).
        assert (n / 2 < 2 ^ N.of_nat (S fuel))%N by (apply N.Div0.div_lt_upper_bound; lia).
        lia. }
      exists (10 * k). intros a. rewrite Hk.
      rewrite digits_value_push by (apply N.mod_lt; lia).
      f_equal. pose proof (N.div_mod n 10). lia.
Qed.

Lemma digits_go_head (fuel : nat) : ∀ (n : N) (rest : string),
  ∃ c r, digits_go fuel n rest = String c r ∧ is_digit c = true.
Proof.
  induction fuel as [|fuel IH]; intros n rest; cbn [digits_go].
  - eexists _, _. split; [done|]. apply is_digit_digit_char, N.mod_lt. lia.
  - destruct (n / 10 =? 0)%N; [|apply IH].
    eexists _, _. split; [done|]. apply is_digit_digit_char, N.mod_lt. lia.
Qed.

Lemma N_toString_value (n : N) : digits_value 0 (N_toString n) = Z.of_N n.
Proof.
  unfold N_toString.
  destruct (digits_go_value (N.to_nat (N.log2 n)) n EmptyString) as [k Hk].
  - rewrite Nat2N.inj_succ, N2Nat.id.
    destruct (N.eq_dec n 0%N) as [->|Hn]; [done|].
    apply N.log2_spec. lia.
  - rewrite Hk. cbn [digits_value]. lia.
Qed.

Lemma is_digit_not_special (c : ascii) :
  is_digit c = true →
  is_whitespace c = false ∧ Ascii.eqb c "-" = false ∧ Ascii.eqb c "+" = false.
Proof.
  unfold is_digit, is_whitespace. intros [H1%N.leb_le H2%N.leb_le]%andb_true_iff.
  split; [|split].
  - repeat (apply orb_false_iff; split); try apply andb_false_iff.
    + right. apply N.leb_gt. lia.
    + apply N.eqb_neq. lia.
    + apply N.eqb_neq. lia.
  - apply Ascii.eqb_neq. intros ->. vm_compute in H1. done.
  - apply Ascii.eqb_neq. intros ->. vm_compute in H1. done.
Qed.

Lemma parseInt10_digits (s : string) (c : ascii) (r : string) :
  s = String c r → is_digit c = true → parseInt10 s = Num (digits_value 0 s).
Proof.
  intros -> Hc. destruct (is_digit_not_special c Hc) as (Hw & Hm & Hp).
  unfold parseInt10. cbn [trimStart]. rewrite Hw, Hm, Hp.
  cbn [starts_with_digit]. rewrite Hc. f_equal. lia.
Qed.

Lemma parseInt10_N_toString (n : N) : parseInt10 (N_toString n) = Num (Z.of_N n).
Proof.
  destruct (digits_go_head (N.to_nat (N.log2 n)) n EmptyString) as (c & r & Hs & Hc).
  fold (N_toString n) in Hs.
  rewrite (parseInt10_digits _ c r Hs Hc). by rewrite N_toString_value.
Qed.

Lemma parseInt10_toString (z : Z) : parseInt10 (toString z) = Num z.
Proof.
  destruct z as [|p|p]; cbn [toString].
  - apply (parseInt10_N_toString 0).
  - apply (parseInt10_N_toString (Npos p)).
  - destruct (digits_go_head (N.to_nat (N.log2 (Npos p))) (Npos p) EmptyString)
      as (c & r & Hs & Hc).
    unfold parseInt10. cbn [trimStart].
    replace (is_whitespace "-") with false by reflexivity.
    rewrite Ascii.eqb_refl. fold (N_toString (Npos p)) in Hs.
    rewrite Hs. cbn [starts_with_digit]. rewrite Hc, <- Hs, N_toString_value.
    f_equal.
Qed.

End NumberFacts.

(** ** The choice resolver *)

Lemma selected_filter {A} (P : A → Prop) (f : A → bool) (l : list A) :
  (∀ x, f x = true ↔ P x) → selected P l (List.filter f l).
Proof.
  intros Hf. induction l as [|x l IH]; simpl; [constructor|].
  destruct (f x) eqn:Hx.
  - constructor; [by apply Hf | done].
  - constructor; [|done]. rewrite <- Hf. congruence.
Qed.

Lemma selected_sublist {A} (P : A → Prop) (l r : list A) :
  selected P l r → sublist r l.
Proof. induction 1; by constructor. Qed.

Lemma selected_elem_of {A} (P : A → Prop) (l r : list A) (x : A) :
  selected P l r → x ∈ r ↔ x ∈ l ∧ P x.
Proof.
  induction 1 as [|y l r Hy _ IH|y l r Hy _ IH].
  - split; [by intros ?%elem_of_nil | by intros [?%elem_of_nil _]].
  - rewrite !elem_of_cons, IH. split; [intros [->|[? ?]]; auto | tauto].
  - rewrite elem_of_cons, IH. split; [tauto | intros [[->|?] ?]; [done | auto]].
Qed.

(** C4: without a query the resolver returns the candidates as they are;
    with a query [q] it returns the candidates whose name contains [q]
    when case is ignored, each in its original place: every kept item
    matches, every item left out does not, and the result is a sublist
    of the candidates. *)
Theorem getAutoCompleteChoices_resolve (L : list ChoiceOption) :
  getAutoCompleteChoices None L = L ∧
  ∀ q : string,
    selected (fun item => ci_contains (name item) q) L
             (getAutoCompleteChoices (Some q) L) ∧
    sublist (getAutoCompleteChoices (Some q) L) L ∧
    ∀ item, item ∈ getAutoCompleteChoices (Some q) L ↔
            item ∈ L ∧ ci_contains (name item) q.
Proof.
  split; [done|]. intros q.
  assert (Hsel : selected (fun item => ci_contains (name item) q) L
                          (getAutoCompleteChoices (Some q) L)).
  { apply selected_filter. intros item. apply includes_spec. }
  split; [done|]. split.
  - by eapply selected_sublist.
  - intros item. exact (selected_elem_of _ _ _ item Hsel).
Qed.

(** ** Validation *)

(** C7: the title validator accepts a string exactly when its length is
    between 5 and 120; a shorter one and a longer one are each rejected
    with a message. *)
Theorem validate_title_accepts (input : string) :
  (validate_title (Some input) = Valid ↔
     (5 <= String.length input <= 120)%nat) ∧
  ((String.length input <= 4)%nat →
     validate_title (Some input) = Invalid "Title should be more than 5 characters long") ∧
  ((121 <= String.length input)%nat →
     validate_title (Some input) = Invalid "Title should not be longer than 120 characters").
Proof.
  unfold validate_title.
  destruct (Z.ltb_spec (Z.of_nat (String.length input)) 5) as [Hlt|Hge];
    [|destruct (Z.gtb_spec (Z.of_nat (String.length input)) 120) as [Hgt|Hle]].
  - repeat split; try done; intros; lia.
  - repeat split; try done; intros; lia.
  - repeat split; try done; intros; lia.
Qed.

Lemma validate_title_accepts_witness :
  validate_title (Some "Fix Login Bug") = Valid ∧
  validate_title (Some "abcd") = Invalid "Title should be more than 5 characters long".
Proof.
  split.
  - apply (validate_title_accepts "Fix Login Bug"). simpl. lia.
  - apply (validate_title_accepts "abcd"). simpl. lia.
Defined.

(** ** Sorting by team *)

Lemma insert_sorted_Permutation {A} (cmp : A → A → Z) (x : A) (l : list A) :
  JSArray.insert_sorted cmp x l ≡ₚ x :: l.
Proof.
  induction l as [|y l IH]; simpl; [done|].
  destruct (cmp x y <=? 0); [done|]. rewrite IH. apply Permutation_swap.
Qed.

Lemma sort_cons {A} (cmp : A → A → Z) (x : A) (l : list A) :
  JSArray.sort cmp (x :: l) = JSArray.insert_sorted cmp x (JSArray.sort cmp l).
Proof. reflexivity. Qed.

Lemma sort_Permutation {A} (cmp : A → A → Z) (l : list A) :
  JSArray.sort cmp l ≡ₚ l.
Proof.
  induction l as [|x l IH]; [done|].
  by rewrite sort_cons, insert_sorted_Permutation, IH.
Qed.

Lemma insert_sorted_by_team (p : IProject) (l : list IProject) :
  Sorted team_le l → Sorted team_le (JSArray.insert_sorted by_team_id p l).
Proof.
  induction 1 as [|q l Hl IH Hq]; simpl.
  - by repeat constructor.
  - unfold by_team_id at 1. destruct (Z.leb_spec (p_team_id p - p_team_id q) 0) as [Hle|Hgt].
    + constructor; [by constructor|]. constructor. unfold team_le. lia.
    + constructor; [done|].
      destruct Hq as [|r l Hqr]; simpl.
      * constructor. unfold team_le. lia.
      * unfold by_team_id at 1. destruct (p_team_id p - p_team_id r <=? 0);
          constructor; [unfold team_le; lia | done].
Qed.

Lemma sort_by_team_Sorted (l : list IProject) :
  Sorted team_le (JSArray.sort by_team_id l).
Proof.
  induction l as [|p l IH]; [constructor|].
  rewrite sort_cons. by apply insert_sorted_by_team.
Qed.

Lemma sort_by_team_fixed (l : list IProject) :
  Sorted team_le l → JSArray.sort by_team_id l = l.
Proof.
  induction 1 as [|p l Hl IH Hp]; [done|].
  rewrite sort_cons, IH. destruct Hp as [|q l Hpq]; simpl; [done|].
  unfold by_team_id, team_le in *.
  destruct (Z.leb_spec (p_team_id p - p_team_id q) 0); [done | lia].
Qed.

Lemma sort_by_team_idempotent (l : list IProject) :
  JSArray.sort by_team_id (JSArray.sort by_team_id l) = JSArray.sort by_team_id l.
Proof. apply sort_by_team_fixed, sort_by_team_Sorted. Qed.

(** ** The project prompt *)

Lemma find_Some_iff {A} (f : A → bool) (l : list A) :
  is_Some (JSArray.find f l) ↔ ∃ x, x ∈ l ∧ f x = true.
Proof.
  induction l as [|y l IH]; simpl.
  - split; [by intros [? ?] | by intros (x & ?%elem_of_nil & _)].
  - destruct (f y) eqn:Hy.
    + split; [|by eauto]. intros _. exists y. split; [by left | done].
    + rewrite IH. split; intros (x & Hx & Hfx).
      * exists x. split; [by right | done].
      * apply elem_of_cons in Hx as [->|Hx]; [congruence | eauto].
Qed.

Lemma project_choice_is_Some (ts : list ITeam) (project : IProject) :
  is_Some (project_choice ts project) ↔
  Exists (fun team => t_id team = p_team_id project) ts.
Proof.
  transitivity (is_Some (JSArray.find (fun team => t_id team =? p_team_id project) ts)).
  - unfold project_choice. destruct (JSArray.find _ ts); split; intros [? ?]; by eauto.
  - rewrite find_Some_iff, Exists_exists.
    split; intros (team & Hin & Heq); exists team; split; try done.
    + by apply Z.eqb_eq.
    + by apply Z.eqb_eq.
Qed.

Lemma project_source_state (state : IClubhouseState) (input : option string) :
  fst (project_source state input) =
  set_projects (JSArray.sort by_team_id (projects state)) state.
Proof. reflexivity. Qed.

Lemma project_source_choices (state : IClubhouseState) (input : option string) :
  snd (project_source state input) =
  getAutoCompleteChoices input <$>
    mapM (project_choice (teams state)) (JSArray.sort by_team_id (projects state)).
Proof.
  unfold project_source. cbn [snd set_projects teams].
  by destruct (mapM _ _).
Qed.

Lemma project_source_is_Some (state : IClubhouseState) (input : option string) :
  is_Some (snd (project_source state input)) ↔ teams_cover state.
Proof.
  rewrite project_source_choices, fmap_is_Some, mapM_is_Some.
  unfold teams_cover. rewrite !Forall_forall.
  split; intros Hall project Hin.
  - apply project_choice_is_Some, Hall. by rewrite sort_Permutation.
  - apply project_choice_is_Some, Hall. by rewrite sort_Permutation in Hin.
Qed.

(** C10: the project prompt's options can be built exactly when every
    project's [team_id] is the [id] of some team of the snapshot: under
    that precondition the source returns its choices whatever was typed,
    and with a project whose team is missing it throws. *)
Theorem project_source_total_iff (state : IClubhouseState) (input : option string) :
  (teams_cover state → is_Some (snd (project_source state input))) ∧
  (¬ teams_cover state → snd (project_source state input) = None).
Proof.
  split; [apply project_source_is_Some|]. intros Hnot.
  destruct (snd (project_source state input)) eqn:Hs; [|done].
  exfalso. apply Hnot. apply (project_source_is_Some state input).
  rewrite Hs. by eexists.
Qed.

Lemma project_source_total_iff_witness :
  is_Some (snd (project_source two_projects_state None)) ∧
  snd (project_source no_teams_state (Some "w")) = None.
Proof.
  split.
  - apply (project_source_total_iff two_projects_state None).
    unfold teams_cover. compute_done.
  - apply (project_source_total_iff no_teams_state (Some "w")).
    unfold teams_cover. compute_done.
Defined.

Lemma elem_of_getAutoCompleteChoices (input : option string) (L : list ChoiceOption)
  (item : ChoiceOption) :
  item ∈ getAutoCompleteChoices input L → item ∈ L.
Proof.
  destruct input as [q|]; [|done]. simpl.
  rewrite !list_elem_of_In, filter_In. tauto.
Qed.

Lemma project_source_elem_of (state : IClubhouseState) (input : option string)
  (choices : list ChoiceOption) (choice : ChoiceOption) :
  snd (project_source state input) = Some choices → choice ∈ choices →
  ∃ project, project ∈ projects state ∧
             project_choice (teams state) project = Some choice.
Proof.
  rewrite project_source_choices. intros Hsrc Hin.
  apply fmap_Some in Hsrc as (all & Hall & ->).
  apply elem_of_getAutoCompleteChoices in Hin.
  apply mapM_Some in Hall.
  apply list_elem_of_lookup in Hin as [i Hi].
  destruct (Forall2_lookup_r _ _ _ _ _ Hall Hi) as (project & Hp & Hchoice).
  exists project. split; [|done].
  rewrite <- (sort_Permutation by_team_id). by eapply list_elem_of_lookup_2.
Qed.

Lemma project_choice_value (ts : list ITeam) (project : IProject) (choice : ChoiceOption) :
  project_choice ts project = Some choice →
  value choice = VString (JSNumber.toString (p_id project)).
Proof.
  unfold project_choice. destruct (JSArray.find _ ts); [|done]. by intros [= <-].
Qed.

(** C9: whichever option of the project prompt is selected, the
    [project_id] of the creation request is the id of the project the
    option was built from: the option's value is the id's decimal text and
    [parseInt(_, 10)] reads it back. *)
Theorem project_id_round_trip (state : IClubhouseState) (input : option string)
  (choices : list ChoiceOption) (choice : ChoiceOption) (res : Answers) :
  snd (project_source state input) = Some choices →
  choice ∈ choices →
  a_project res = value choice →
  ∃ project, project ∈ projects state ∧
             project_choice (teams state) project = Some choice ∧
             value choice = VString (JSNumber.toString (p_id project)) ∧
             s_project_id (story_request res) = JSNumber.Num (p_id project).
Proof.
  intros Hsrc Hin Hres.
  destruct (project_source_elem_of _ _ _ _ Hsrc Hin) as (project & Hp & Hchoice).
  exists project. pose proof (project_choice_value _ _ _ Hchoice) as Hv.
  repeat split; try done.
  cbn [story_request s_project_id]. rewrite Hres, Hv.
  apply NumberFacts.parseInt10_toString.
Qed.

Lemma project_id_round_trip_witness :
  ∃ project, project ∈ projects two_projects_state ∧
    project_choice (teams two_projects_state) project =
      Some {| name := "A (T2)"; value := VString "1" |} ∧
    value {| name := "A (T2)"; value := VString "1" |} =
      VString (JSNumber.toString (p_id project)) ∧
    s_project_id (story_request (answers_with (VString "1") VNull VNull)) =
      JSNumber.Num (p_id project).
Proof.
  apply (project_id_round_trip two_projects_state (Some "a")
           [ {| name := "A (T2)"; value := VString "1" |} ]).
  - reflexivity.
  - apply list_elem_of_singleton. reflexivity.
  - reflexivity.
Defined.

(** ** Owner and label *)

Lemma owner_source_elem_of (state : IClubhouseState) (input : option string)
  (choices : list ChoiceOption) (choice : ChoiceOption) :
  snd (owner_source state input) = Some choices → choice ∈ choices →
  choice = do_not_assign ∨ ∃ user, user ∈ users state ∧ choice = user_choice user.
Proof.
  intros [= <-] Hin%elem_of_getAutoCompleteChoices.
  apply elem_of_cons in Hin as [->|Hin]; [by left | right].
  apply list_elem_of_fmap in Hin as (user & -> & Hin). by exists user.
Qed.

Lemma labels_source_elem_of (state : IClubhouseState) (input : option string)
  (choices : list ChoiceOption) (choice : ChoiceOption) :
  snd (labels_source state input) = Some choices → choice ∈ choices →
  choice = no_label ∨ ∃ label, label ∈ sprints state ∧ choice = label_choice label.
Proof.
  intros [= <-] Hin%elem_of_getAutoCompleteChoices.
  apply elem_of_app in Hin as [Hin|Hin].
  - right. apply list_elem_of_fmap in Hin as (label & -> & Hin). by exists label.
  - left. by apply list_elem_of_singleton in Hin.
Qed.

Lemma elem_of_getAutoCompleteChoices_matching (input : option string)
  (L : list ChoiceOption) (item : ChoiceOption) :
  item ∈ L →
  match input with
  | None => True
  | Some q => ci_contains (name item) q
  end →
  item ∈ getAutoCompleteChoices input L.
Proof.
  intros Hin Hmatch. destruct input as [q|]; [|done]. cbn [getAutoCompleteChoices].
  apply list_elem_of_In, filter_In. split; [by apply list_elem_of_In|].
  by apply includes_spec.
Qed.

(** C5: [owner_ids] of the creation request is [null] exactly when the
    answer of the owner prompt is the "Do not assign" option, whose value
    is the none-sentinel. Every user of the snapshot is offered (always
    without input, and with input when the profile name matches it) as an
    option whose value is the user's id, and every other option offered is
    such a one; when a user's option is the answer, [owner_ids] is the
    one-element array of that user's id. *)
Theorem owner_ids_sentinel (state : IClubhouseState) (input : option string)
  (choices : list ChoiceOption) (choice : ChoiceOption) (res : Answers) :
  snd (owner_source state input) = Some choices →
  choice ∈ choices →
  a_owner res = value choice →
  (s_owner_ids (story_request res) = None ↔
     choice = {| name := "Do not assign"; value := VNull |}) ∧
  (choice = {| name := "Do not assign"; value := VNull |} ∨
   ∃ user, user ∈ users state ∧
           choice = {| name := u_profile_name user; value := VString (u_id user) |}) ∧
  (∀ user, choice = {| name := u_profile_name user; value := VString (u_id user) |} →
           s_owner_ids (story_request res) = Some [VString (u_id user)]) ∧
  (∀ user, user ∈ users state →
           match input with
           | None => True
           | Some q => ci_contains (u_profile_name user) q
           end →
           {| name := u_profile_name user; value := VString (u_id user) |} ∈ choices ∧
           ∀ res', a_owner res' = VString (u_id user) →
                   s_owner_ids (story_request res') = Some [VString (u_id user)]).
Proof.
  intros Hsrc Hin Hres. cbn [story_request s_owner_ids]. rewrite Hres.
  split; [|split; [|split]].
  - destruct (owner_source_elem_of _ _ _ _ Hsrc Hin) as [->|(user & Huser & ->)].
    + done.
    + split; [done | by intros [=]].
  - destruct (owner_source_elem_of _ _ _ _ Hsrc Hin) as [->|(user & Huser & ->)].
    + by left.
    + right. by exists user.
  - by intros user ->.
  - intros user Huser Hmatch. split.
    + injection Hsrc as <-. apply elem_of_getAutoCompleteChoices_matching; [|done].
      right. apply list_elem_of_fmap. by exists user.
    + intros res' Hres'. cbn [story_request s_owner_ids]. by rewrite Hres'.
Qed.

Lemma owner_ids_sentinel_witness :
  s_owner_ids (story_request (answers_with (VString "1") (VString "u-1") VNull)) =
    Some [VString "u-1"] ∧
  {| name := "Ada"; value := VString "u-1" |} ∈
    [ {| name := "Do not assign"; value := VNull |};
      {| name := "Ada"; value := VString "u-1" |} ] ∧
  (s_owner_ids (story_request (answers_with (VString "1") (VString "u-1") VNull)) = None ↔
   {| name := "Ada"; value := VString "u-1" |} =
   {| name := "Do not assign"; value := VNull |}).
Proof.
  destruct (owner_ids_sentinel two_projects_state None
              [ {| name := "Do not assign"; value := VNull |};
                {| name := "Ada"; value := VString "u-1" |} ]
              {| name := "Ada"; value := VString "u-1" |}
              (answers_with (VString "1") (VString "u-1") VNull))
    as (Hnull & _ & Hpicked & Hoffered).
  - reflexivity.
  - apply elem_of_cons. right. apply list_elem_of_singleton. reflexivity.
  - reflexivity.
  - split; [|split].
    + exact (Hpicked {| u_id := "u-1"; u_profile_name := "Ada" |} eq_refl).
    + apply (Hoffered {| u_id := "u-1"; u_profile_name := "Ada" |}); [|exact I].
      apply list_elem_of_singleton. reflexivity.
    + exact Hnull.
Defined.

(** C6: for the answer chosen at the label prompt, [labels] of the
    creation request is [null] exactly when the choice is "No Label", whose
    value is the none-sentinel; any other choice stands for a sprint of the
    snapshot and [labels] is the one-element array holding the object
    [{name}] of that sprint. *)
Theorem labels_sentinel (state : IClubhouseState) (input : option string)
  (choices : list ChoiceOption) (choice : ChoiceOption) (res : Answers) :
  snd (labels_source state input) = Some choices →
  choice ∈ choices →
  a_labels res = value choice →
  (s_labels (story_request res) = None ↔ choice = no_label) ∧
  (choice ≠ no_label →
   ∃ label, label ∈ sprints state ∧ choice = label_choice label ∧
            s_labels (story_request res) = Some [VLabel {| cl_name := l_name label |}]).
Proof.
  intros Hsrc Hin Hres. cbn [story_request s_labels]. rewrite Hres.
  destruct (labels_source_elem_of _ _ _ _ Hsrc Hin) as [->|(label & Hlabel & ->)].
  - split; [done|]. by intros [].
  - split; [split; [done | by intros [=]]|]. intros _. by exists label.
Qed.

Lemma labels_sentinel_witness :
  (s_labels (story_request
     (answers_with (VString "1") VNull (VLabel {| cl_name := "Sprint 9" |}))) = None ↔
     label_choice {| l_name := "Sprint 9" |} = no_label) ∧
  (label_choice {| l_name := "Sprint 9" |} ≠ no_label →
   ∃ label, label ∈ sprints two_projects_state ∧
            label_choice {| l_name := "Sprint 9" |} = label_choice label ∧
            s_labels (story_request
              (answers_with (VString "1") VNull (VLabel {| cl_name := "Sprint 9" |}))) =
              Some [VLabel {| cl_name := l_name label |}]).
Proof.
  apply (labels_sentinel two_projects_state (Some "sprint")
           [ label_choice {| l_name := "Sprint 9" |} ]).
  - reflexivity.
  - apply list_elem_of_singleton. reflexivity.
  - reflexivity.
Defined.

(** ** The snapshot under the sources *)

Lemma project_source_frame (state : IClubhouseState) (input : option string) :
  let state' := fst (project_source state input) in
  projects state' ≡ₚ projects state ∧
  Sorted team_le (projects state') ∧
  epics state' = epics state ∧ teams state' = teams state ∧
  users state' = users state ∧ sprints state' = sprints state ∧
  configuration state' = configuration state.
Proof.
  rewrite project_source_state. cbn. repeat split.
  - apply sort_Permutation.
  - apply sort_by_team_Sorted.
Qed.

Lemma set_projects_same (state : IClubhouseState) :
  set_projects (projects state) state = state.
Proof. by destruct state. Qed.

Lemma project_source_sorted_pure (state : IClubhouseState) (input : option string) :
  Sorted team_le (projects state) → fst (project_source state input) = state.
Proof.
  intros Hs. rewrite project_source_state, sort_by_team_fixed by done.
  apply set_projects_same.
Qed.

Lemma project_source_changes_unsorted (state : IClubhouseState) (input : option string) :
  ¬ Sorted team_le (projects state) → fst (project_source state input) ≠ state.
Proof.
  intros Hunsorted Heq. apply Hunsorted.
  rewrite <- Heq, project_source_state. apply sort_by_team_Sorted.
Qed.

Lemma project_source_twice (state : IClubhouseState) (input input' : option string) :
  fst (project_source (fst (project_source state input)) input') =
  fst (project_source state input).
Proof.
  apply project_source_sorted_pure. rewrite project_source_state.
  apply sort_by_team_Sorted.
Qed.

Lemma other_sources_pure (state : IClubhouseState) (input : option string) :
  fst (epic_source state input) = state ∧
  fst (owner_source state input) = state ∧
  fst (labels_source state input) = state.
Proof. done. Qed.

(** C2 (fails on the code): the project prompt's source sorts
    [state.projects] in place. At [two_projects_state] the snapshot's
    project array reads [A; B] before the call and [B; A] after it, while
    the sources of the epic, owner and label prompts leave the snapshot
    as it was. *)
Theorem project_source_reorders_snapshot :
  projects two_projects_state =
    [ {| p_id := 1; p_name := "A"; p_team_id := 2 |};
      {| p_id := 2; p_name := "B"; p_team_id := 1 |} ] ∧
  projects (fst (project_source two_projects_state None)) =
    [ {| p_id := 2; p_name := "B"; p_team_id := 1 |};
      {| p_id := 1; p_name := "A"; p_team_id := 2 |} ] ∧
  fst (project_source two_projects_state None) ≠ two_projects_state ∧
  fst (epic_source two_projects_state None) = two_projects_state ∧
  fst (owner_source two_projects_state None) = two_projects_state ∧
  fst (labels_source two_projects_state None) = two_projects_state.
Proof. repeat split. intros Heq. discriminate Heq. Qed.

(** C1 (fails on the code): the project question's [default] is the index
    of the default project in [state.projects] as ordered when the
    questions are built, not in the option list the prompt displays. At
    [two_projects_state] the default is 0, the displayed list is
    [B (T1); A (T2)], the default project's option is at index 1, and
    index 0 shows project 2. After the source has run once the store is
    sorted and the index computed from it is 1. *)
Theorem project_default_index_mismatch :
  (q_default <$> head (questions two_projects_state)) = Some (Some (VNumber 0)) ∧
  displayed_projects two_projects_state =
    Some [ {| name := "B (T1)"; value := VString "2" |};
           {| name := "A (T2)"; value := VString "1" |} ] ∧
  displayed_index_of_default two_projects_state = Some 1 ∧
  project_default (fst (project_source two_projects_state None)) = 1.
Proof. repeat split. Qed.

Lemma toString_inj (m n : Z) : JSNumber.toString m = JSNumber.toString n → m = n.
Proof.
  intros Heq. pose proof (NumberFacts.parseInt10_toString m) as Hm.
  rewrite Heq, NumberFacts.parseInt10_toString in Hm. congruence.
Qed.

Lemma findIndex_from_Forall2 {A B} (f : A → bool) (g : B → bool) (l : list A) (k : list B) :
  Forall2 (fun x y => f x = g y) l k →
  ∀ i, JSArray.findIndex_from f i l = JSArray.findIndex_from g i k.
Proof.
  induction 1 as [|x y l k Hxy _ IH]; intros i; simpl; [done|].
  rewrite Hxy. destruct (g y); [done | apply IH].
Qed.

(** Once the store is sorted by team, which it is from the second pass of
    the wizard on, the question's default is the displayed index. *)
Lemma project_default_sorted (state : IClubhouseState) :
  Sorted team_le (projects state) → teams_cover state →
  displayed_index_of_default state = Some (project_default state).
Proof.
  intros Hsorted Hcover.
  destruct (proj2 (project_source_is_Some state None) Hcover) as [options Hoptions].
  unfold displayed_index_of_default, displayed_projects. rewrite Hoptions. f_equal.
  rewrite project_source_choices, sort_by_team_fixed in Hoptions by done.
  apply fmap_Some in Hoptions as (all & Hall & ->). cbn [getAutoCompleteChoices].
  symmetry. apply findIndex_from_Forall2.
  eapply Forall2_impl; [by apply mapM_Some|].
  intros project choice Hchoice%project_choice_value. cbn beta. rewrite Hchoice.
  destruct (Z.eqb_spec (p_id project) (defaultProjectId (configuration state))) as [->|Hne].
  - by rewrite bool_decide_eq_true_2.
  - rewrite bool_decide_eq_false_2; [done|]. intros [= Heq%toString_inj]. done.
Qed.

(** ** Submission and the session loop *)

Section WizardFacts.
Context `{Chalk} `{Slug}.

Lemma submit_rejected (state : IClubhouseState) (err : ErrorObject) (throws : bool)
  (res : Answers) :
  submit state (inr err) throws res =
  ([ createStory_call (token (configuration state)) (story_request res);
     console_error (chalk_red "There was an error processing your request");
     console_error_value (body err) ],
   Resolved None).
Proof. reflexivity. Qed.

Lemma submit_created (state : IClubhouseState) (story : IStory) (res : Answers) :
  submit state (inl story) false res =
  ([ createStory_call (token (configuration state)) (story_request res);
     console_info (chalk_green ("Successfully created a story with id " +:+
                                id_text (s_id story)));
     console_info ("You can view your story at " +:+
                   link ("https://app.clubhouse.io/story/" +:+ id_text (s_id story)));
     console_info ("To start working on this story (copied to clipboard): " +:+
                   chalk_bold (gitCmd story));
     clipboard_writeSync (gitCmd story) ],
   Resolved (Some story)).
Proof. reflexivity. Qed.

Lemma submit_clipboard_throws (state : IClubhouseState) (story : IStory) (res : Answers) :
  submit state (inl story) true res =
  ([ createStory_call (token (configuration state)) (story_request res);
     console_info (chalk_green ("Successfully created a story with id " +:+
                                id_text (s_id story)));
     console_info ("You can view your story at " +:+
                   link ("https://app.clubhouse.io/story/" +:+ id_text (s_id story)));
     console_info ("To start working on this story (copied to clipboard): " +:+
                   chalk_bold (gitCmd story));
     console_error (chalk_red "There was an error processing your request");
     console_error_value VUndefined ],
   Resolved None).
Proof. reflexivity. Qed.

Lemma createSingleTicket_prompted (state state' : IClubhouseState) (it : Interaction)
  (shown : list Event) (res : Answers) :
  inquirer_prompt (questions state) state (Some it) = (state', (shown, Resolved res)) →
  createSingleTicket state (Some it) =
  (state', (shown ++ fst (submit state' (api_result it) (clipboard_throws it) res),
            snd (submit state' (api_result it) (clipboard_throws it) res))).
Proof.
  intros Hprompt. unfold createSingleTicket. rewrite Hprompt. cbn [then_].
  by destruct (submit state' (api_result it) (clipboard_throws it) res).
Qed.

Lemma createTickets_pass (k : nat) : ∀ (state : IClubhouseState) (idx : Z)
  (script : list Interaction) (state_k : IClubhouseState) (idx_k : Z),
  pass_start state idx script k = Some (state_k, idx_k) →
  ∃ before, createTickets state idx script =
            before ++ createTickets state_k idx_k (drop k script).
Proof.
  induction k as [|k IH]; intros state idx script state_k idx_k Hstart.
  - cbn [pass_start] in Hstart. injection Hstart as -> ->. exists []. by rewrite drop_0.
  - destruct script as [|it script]; [done|]. cbn [pass_start] in Hstart.
    cbn [createTickets drop].
    destruct (createSingleTicket state (Some it)) as [state1 [tr settled]].
    destruct settled as [|created|r]; try done.
    destruct (doOneMore it); [|done].
    destruct (IH _ _ _ _ _ Hstart) as [before Hbefore].
    exists (console_info (banner idx) :: tr ++
            [prompt_confirm "Create another ticket: " true] ++ before).
    rewrite Hbefore. cbn [app]. f_equal. rewrite <- !app_assoc. done.
Qed.

(** C3: in whichever pass of the session the creation call is rejected,
    the handler prints the error notice and then the error's raw payload,
    the promise of [createSingleTicket] resolves (nothing is raised) with
    no story, and the next thing the session shows is the
    "Create another ticket" confirmation. *)
Theorem rejected_creation_absorbed (state : IClubhouseState) (idx : Z)
  (script : list Interaction) (k : nat) (state_k state' : IClubhouseState) (idx_k : Z)
  (it : Interaction) (shown : list Event) (res : Answers) (err : ErrorObject) :
  pass_start state idx script k = Some (state_k, idx_k) →
  script !! k = Some it →
  inquirer_prompt (questions state_k) state_k (Some it) = (state', (shown, Resolved res)) →
  api_result it = inr err →
  createSingleTicket state_k (Some it) =
    (state',
     (shown ++
      [ createStory_call (token (configuration state')) (story_request res);
        console_error (chalk_red "There was an error processing your request");
        console_error_value (body err) ],
      Resolved None)) ∧
  ∃ before after,
    createTickets state idx script =
    before ++
    [ console_error (chalk_red "There was an error processing your request");
      console_error_value (body err);
      prompt_confirm "Create another ticket: " true ] ++ after.
Proof.
  intros Hstart Hit Hprompt Hapi.
  assert (Hsingle : createSingleTicket state_k (Some it) =
    (state',
     (shown ++
      [ createStory_call (token (configuration state')) (story_request res);
        console_error (chalk_red "There was an error processing your request");
        console_error_value (body err) ],
      Resolved None))).
  { rewrite (createSingleTicket_prompted _ _ _ _ _ Hprompt), Hapi.
    by rewrite submit_rejected. }
  split; [done|].
  destruct (createTickets_pass _ _ _ _ _ _ Hstart) as [before Hbefore].
  rewrite (drop_S _ _ _ Hit) in Hbefore. cbn [createTickets] in Hbefore.
  rewrite Hsingle in Hbefore.
  exists (before ++ console_info (banner idx_k) :: shown ++
          [createStory_call (token (configuration state')) (story_request res)]).
  eexists. rewrite Hbefore. rewrite <- !app_assoc. cbn [app].
  rewrite <- !app_assoc. cbn [app]. reflexivity.
Qed.

End WizardFacts.

(** ** The branch command *)

Lemma plain_char_branch_safe (c : ascii) :
  PlainSlug.is_plain c = true → PlainSlug.is_space c = false →
  PlainSlug.branch_safe (lower_char c) = true.
Proof. destruct c as [[] [] [] [] [] [] [] []]; by vm_compute. Qed.

Lemma all_chars_trimStart (P : ascii → bool) (s : string) :
  all_chars P s = true → all_chars P (PlainSlug.trimStart s) = true.
Proof.
  induction s as [|c s IH]; [done|]. cbn [PlainSlug.trimStart].
  destruct (PlainSlug.is_space c); [|done].
  cbn [all_chars]. intros [_ Hs]%andb_true_iff. by apply IH.
Qed.

Lemma all_chars_trimEnd (P : ascii → bool) (s : string) :
  all_chars P s = true → all_chars P (PlainSlug.trimEnd s) = true.
Proof.
  induction s as [|c s IH]; [done|]. cbn [PlainSlug.trimEnd all_chars].
  intros [Hc Hs]%andb_true_iff. specialize (IH Hs).
  destruct (PlainSlug.trimEnd s) as [|d r].
  - destruct (PlainSlug.is_space c); [done|]. cbn [all_chars]. by rewrite Hc.
  - cbn [all_chars] in *. by rewrite Hc.
Qed.

Lemma collapse_branch_safe (s : string) : ∀ in_run : bool,
  all_chars PlainSlug.is_plain s = true →
  all_chars PlainSlug.branch_safe (toLowerCase (PlainSlug.collapse in_run s)) = true.
Proof.
  induction s as [|c s IH]; intros in_run; [done|]. cbn [all_chars PlainSlug.collapse].
  intros [Hc Hs]%andb_true_iff. destruct (PlainSlug.is_space c) eqn:Hspace.
  - destruct in_run; [by apply IH|]. cbn [toLowerCase all_chars].
    rewrite IH by done. reflexivity.
  - cbn [toLowerCase all_chars]. rewrite plain_char_branch_safe by done. by apply IH.
Qed.

Lemma hyphenate_branch_safe (s : string) :
  PlainSlug.plain s = true →
  all_chars PlainSlug.branch_safe (toLowerCase (PlainSlug.hyphenate s)) = true.
Proof.
  intros Hs. apply collapse_branch_safe, all_chars_trimEnd, all_chars_trimStart, Hs.
Qed.

Lemma plain_slug_law : @SlugPlain plain_slug.
Proof. intros s _. reflexivity. Qed.

Section BranchCommand.
Context `{Chalk} `{Slug} `{!SlugPlain}.

(** C8: for a created story with an id, the branch command is
    "git checkout -b " followed by the story type, "/ch", the id, "/" and
    the lower-cased slug of the story name. For a name of ASCII letters,
    digits and spaces that last segment is the name's words, lower-cased
    and joined by single hyphens, and holds nothing but [a]-[z], digits
    and [-]; so the story [{name: "Fix Login Bug", story_type: "bug",
    id: 42}] gives "git checkout -b bug/ch42/fix-login-bug". The handler
    prints the command and puts it on the clipboard; when the clipboard
    write throws, the command was printed all the same and the chained
    [catch] reports an error and resolves with no story. *)
Theorem gitCmd_branch (story : IStory) (id : Z) :
  s_id story = Some id →
  gitCmd story =
    "git checkout -b " +:+ s_story_type story +:+ "/ch" +:+ JSNumber.toString id +:+
    "/" +:+ toLowerCase (slug (s_name story)) ∧
  (PlainSlug.plain (s_name story) = true →
   toLowerCase (slug (s_name story)) = toLowerCase (PlainSlug.hyphenate (s_name story)) ∧
   all_chars PlainSlug.branch_safe (toLowerCase (slug (s_name story))) = true) ∧
  (s_name story = "Fix Login Bug" → s_story_type story = "bug" → id = 42 →
   gitCmd story = "git checkout -b bug/ch42/fix-login-bug") ∧
  (∀ state res,
     submit state (inl story) false res =
     ([ createStory_call (token (configuration state)) (story_request res);
        console_info (chalk_green ("Successfully created a story with id " +:+
                                   JSNumber.toString id));
        console_info ("You can view your story at " +:+
                      link ("https://app.clubhouse.io/story/" +:+ JSNumber.toString id));
        console_info ("To start working on this story (copied to clipboard): " +:+
                      chalk_bold (gitCmd story));
        clipboard_writeSync (gitCmd story) ],
      Resolved (Some story))) ∧
  (∀ state res,
     submit state (inl story) true res =
     ([ createStory_call (token (configuration state)) (story_request res);
        console_info (chalk_green ("Successfully created a story with id " +:+
                                   JSNumber.toString id));
        console_info ("You can view your story at " +:+
                      link ("https://app.clubhouse.io/story/" +:+ JSNumber.toString id));
        console_info ("To start working on this story (copied to clipboard): " +:+
                      chalk_bold (gitCmd story));
        console_error (chalk_red "There was an error processing your request");
        console_error_value VUndefined ],
      Resolved None)).
Proof.
  intros Hid.
  assert (Hcmd : gitCmd story =
    "git checkout -b " +:+ s_story_type story +:+ "/ch" +:+ JSNumber.toString id +:+
    "/" +:+ toLowerCase (slug (s_name story))).
  { unfold gitCmd. by rewrite Hid. }
  split; [done|]. split; [|split; [|split]].
  - intros Hplain. pose proof (slug_plain _ Hplain) as Hslug. split; [done|].
    rewrite Hslug. by apply hyphenate_branch_safe.
  - intros Hname Htype ->. rewrite Hcmd, Htype, Hname.
    rewrite (slug_plain "Fix Login Bug") by reflexivity. reflexivity.
  - intros state res. rewrite submit_created. cbn [id_text]. by rewrite Hid.
  - intros state res. rewrite submit_clipboard_throws. cbn [id_text]. by rewrite Hid.
Qed.

End BranchCommand.

Example hyphenate_example :
  PlainSlug.hyphenate "  Fix  Login Bug " = "Fix-Login-Bug" ∧
  PlainSlug.hyphenate "   " = EmptyString.
Proof. by split. Qed.

Lemma gitCmd_branch_witness :
  @gitCmd plain_slug created_story = "git checkout -b bug/ch42/fix-login-bug" ∧
  all_chars PlainSlug.branch_safe (toLowerCase (plain_slug "Fix Login Bug")) = true.
Proof.
  destruct (@gitCmd_branch plain_chalk plain_slug plain_slug_law created_story 42 eq_refl)
    as (_ & Hplain & Hexample & _).
  split.
  - exact (Hexample eq_refl eq_refl eq_refl).
  - exact (proj2 (Hplain eq_refl)).
Defined.

Lemma rejected_creation_absorbed_witness :
  ∃ before after,
    @createTickets plain_chalk AsciiSlug.ascii_slug two_projects_state 1
      [created_pass; rejecting_pass] =
    before ++
    [ console_error "There was an error processing your request";
      console_error_value (VString "Unprocessable");
      prompt_confirm "Create another ticket: " true ] ++ after.
Proof.
  eapply proj2.
  eapply (@rejected_creation_absorbed plain_chalk AsciiSlug.ascii_slug
            two_projects_state 1 [created_pass; rejecting_pass] 1
            _ _ _ rejecting_pass _ _ {| body := VString "Unprocessable" |}).
  - vm_compute. reflexivity.
  - reflexivity.
  - vm_compute. reflexivity.
  - reflexivity.
Defined.

(** ** Worked examples *)

Example resolve_example :
  getAutoCompleteChoices (Some "LOG")
    [ {| name := "Fix login"; value := VNull |};
      {| name := "Other"; value := VNull |};
      {| name := "cataLOGue"; value := VNull |} ] =
  [ {| name := "Fix login"; value := VNull |};
    {| name := "cataLOGue"; value := VNull |} ].
Proof. reflexivity. Qed.

Example toString_example :
  JSNumber.toString 1234567890 = "1234567890" ∧ JSNumber.toString (-40) = "-40" ∧
  JSNumber.toString 0 = "0".
Proof. repeat split. Qed.

Example parseInt_example :
  JSNumber.parseInt10 "  -12abc" = JSNumber.Num (-12) ∧
  JSNumber.parseInt10 "abc" = JSNumber.NaN ∧
  parseInt VNull = JSNumber.NaN.
Proof. repeat split. Qed.

Example title_lengths_example :
  validate_title (Some "abcd") = Invalid "Title should be more than 5 characters long" ∧
  validate_title (Some "abcde") = Valid ∧
  validate_title None = Invalid "Title should be more than 5 characters long".
Proof. repeat split. Qed.

Example missing_team_stops_session :
  @createTickets plain_chalk AsciiSlug.ascii_slug no_teams_state 1 [created_pass] =
  [ console_info (String "010" "Creating ticket #1");
    prompt_questions
      ["project"; "epic"; "title"; "description"; "storyType"; "owner"; "labels"] ].
Proof. reflexivity. Qed.

(** * Further properties *)

(** ** Running the prompts *)

Lemma teams_cover_sorted_snapshot (state : IClubhouseState) :
  teams_cover (sorted_snapshot state) ↔ teams_cover state.
Proof.
  unfold teams_cover, sorted_snapshot. cbn [set_projects projects teams].
  by rewrite sort_Permutation.
Qed.

Lemma sorted_snapshot_Sorted (state : IClubhouseState) :
  Sorted team_le (projects (sorted_snapshot state)).
Proof. apply sort_by_team_Sorted. Qed.

Lemma sorted_snapshot_twice (state : IClubhouseState) :
  sorted_snapshot (sorted_snapshot state) = sorted_snapshot state.
Proof.
  unfold sorted_snapshot. cbn [set_projects projects].
  by rewrite sort_by_team_idempotent.
Qed.

Lemma project_source_covered (state : IClubhouseState) (input : option string) :
  teams_cover state →
  ∃ choices, project_source state input = (sorted_snapshot state, Some choices).
Proof.
  intros Hcover.
  destruct (proj2 (project_source_is_Some state input) Hcover) as [choices Hchoices].
  exists choices.
  by rewrite (surjective_pairing (project_source state input)), project_source_state,
    Hchoices.
Qed.

Lemma project_source_uncovered (state : IClubhouseState) (input : option string) :
  ¬ teams_cover state →
  project_source state input = (sorted_snapshot state, None).
Proof.
  intros Hnot.
  assert (Hnone : snd (project_source state input) = None).
  { destruct (snd (project_source state input)) eqn:Hs; [|done].
    exfalso. apply Hnot, (project_source_is_Some state input). rewrite Hs. by eexists. }
  by rewrite (surjective_pairing (project_source state input)), project_source_state,
    Hnone.
Qed.

Lemma run_source_project_sorted (inputs : list (option string)) (state : IClubhouseState) :
  teams_cover state →
  run_source project_source (sorted_snapshot state) inputs = (sorted_snapshot state, true).
Proof.
  intros Hcover. induction inputs as [|input inputs IH]; [done|].
  cbn [run_source].
  destruct (project_source_covered (sorted_snapshot state) input) as [choices Hsrc].
  { by apply teams_cover_sorted_snapshot. }
  rewrite Hsrc, sorted_snapshot_twice. apply IH.
Qed.

Lemma run_source_project (input : option string) (inputs : list (option string))
  (state : IClubhouseState) :
  teams_cover state →
  run_source project_source state (input :: inputs) = (sorted_snapshot state, true).
Proof.
  intros Hcover. cbn [run_source].
  destruct (project_source_covered state input Hcover) as [choices ->].
  by apply run_source_project_sorted.
Qed.

Lemma run_source_project_fault (input : option string) (inputs : list (option string))
  (state : IClubhouseState) :
  ¬ teams_cover state →
  run_source project_source state (input :: inputs) = (sorted_snapshot state, false).
Proof.
  intros Hnot. cbn [run_source]. by rewrite project_source_uncovered.
Qed.

Lemma run_source_pure (src : Source) (inputs : list (option string)) (state : IClubhouseState) :
  (∀ input, ∃ choices, src state input = (state, Some choices)) →
  run_source src state inputs = (state, true).
Proof.
  intros Hsrc. induction inputs as [|input inputs IH]; [done|].
  cbn [run_source]. by destruct (Hsrc input) as [choices ->].
Qed.

Lemma ask_questions (built state : IClubhouseState) (it : Interaction) :
  teams_cover state →
  ask (questions built) state it = (sorted_snapshot state, true).
Proof.
  intros Hcover. cbn [questions ask q_source q_name].
  rewrite run_source_project by done.
  rewrite !run_source_pure; [done|..]; intros input; by eexists.
Qed.

Lemma ask_questions_fault (built state : IClubhouseState) (it : Interaction) :
  ¬ teams_cover state →
  ask (questions built) state it = (sorted_snapshot state, false).
Proof.
  intros Hnot. cbn [questions ask q_source q_name].
  by rewrite run_source_project_fault.
Qed.

Lemma question_names_eq (state : IClubhouseState) :
  map q_name (questions state) = question_names.
Proof. reflexivity. Qed.

Section SessionFacts.
Context `{Chalk} `{Slug}.

Lemma submit_resolves (state : IClubhouseState) (result : IStory + ErrorObject)
  (throws : bool) (res : Answers) :
  ∃ created, snd (submit state result throws res) = Resolved created.
Proof. destruct result, throws; by eexists. Qed.

Lemma submit_one_call (state : IClubhouseState) (result : IStory + ErrorObject)
  (throws : bool) (res : Answers) :
  count_events is_createStory_call (fst (submit state result throws res)) = 1%nat ∧
  count_events is_prompt_confirm (fst (submit state result throws res)) = 0%nat.
Proof. by destruct result, throws. Qed.

Lemma createSingleTicket_covered (state : IClubhouseState) (it : Interaction) :
  teams_cover state →
  createSingleTicket state (Some it) =
  (sorted_snapshot state,
   (prompt_questions question_names ::
      fst (submit (sorted_snapshot state) (api_result it) (clipboard_throws it) (answers it)),
    snd (submit (sorted_snapshot state) (api_result it) (clipboard_throws it) (answers it)))).
Proof.
  intros Hcover.
  apply (createSingleTicket_prompted state (sorted_snapshot state) it
           [prompt_questions question_names] (answers it)).
  unfold inquirer_prompt. by rewrite ask_questions.
Qed.

Lemma createSingleTicket_fault (state : IClubhouseState) (it : Interaction) :
  ¬ teams_cover state →
  createSingleTicket state (Some it) =
  (sorted_snapshot state, ([prompt_questions question_names], Rejected TypeError)).
Proof.
  intros Hnot. unfold createSingleTicket, inquirer_prompt.
  by rewrite ask_questions_fault.
Qed.

Lemma createTickets_covered (state : IClubhouseState) (idx : Z) (it : Interaction)
  (script : list Interaction) :
  teams_cover state →
  createTickets state idx (it :: script) =
  console_info (banner idx) :: prompt_questions question_names ::
  fst (submit (sorted_snapshot state) (api_result it) (clipboard_throws it) (answers it)) ++
  prompt_confirm "Create another ticket: " true ::
  (if doOneMore it then createTickets (sorted_snapshot state) (idx + 1) script else []).
Proof.
  intros Hcover. cbn [createTickets]. rewrite createSingleTicket_covered by done.
  destruct (submit_resolves (sorted_snapshot state) (api_result it) (clipboard_throws it)
                (answers it))
    as [created ->].
  done.
Qed.

Lemma createTickets_fault (state : IClubhouseState) (idx : Z) (script : list Interaction) :
  ¬ teams_cover state →
  createTickets state idx script =
  [console_info (banner idx); prompt_questions question_names].
Proof.
  intros Hnot. destruct script as [|it script]; [done|].
  cbn [createTickets]. by rewrite createSingleTicket_fault.
Qed.

End SessionFacts.

Lemma teams_cover_dec (state : IClubhouseState) : {teams_cover state} + {¬ teams_cover state}.
Proof. unfold teams_cover. exact (decide _). Defined.

Lemma count_events_app (f : Event → bool) (tr1 tr2 : list Event) :
  count_events f (tr1 ++ tr2) = (count_events f tr1 + count_events f tr2)%nat.
Proof. unfold count_events. by rewrite List.filter_app, length_app. Qed.

Lemma count_events_cons (f : Event → bool) (e : Event) (tr : list Event) :
  count_events f (e :: tr) = ((if f e then 1 else 0) + count_events f tr)%nat.
Proof. unfold count_events. simpl. by destruct (f e). Qed.

Section SessionProperties.
Context `{Chalk} `{Slug}.

Lemma pass_start_step (state : IClubhouseState) (idx : Z) (it : Interaction)
  (script : list Interaction) (k : nat) (state_k : IClubhouseState) (idx_k : Z) :
  pass_start state idx (it :: script) (S k) = Some (state_k, idx_k) →
  teams_cover state ∧ doOneMore it = true ∧
  pass_start (sorted_snapshot state) (idx + 1) script k = Some (state_k, idx_k).
Proof.
  cbn [pass_start]. destruct (teams_cover_dec state) as [Hcover|Hnot].
  - rewrite createSingleTicket_covered by done.
    destruct (submit_resolves (sorted_snapshot state) (api_result it) (clipboard_throws it)
                (answers it))
      as [created ->].
    by destruct (doOneMore it).
  - by rewrite createSingleTicket_fault.
Qed.

Lemma pass_start_covered_step (state : IClubhouseState) (idx : Z) (it : Interaction)
  (script : list Interaction) (k : nat) :
  teams_cover state →
  pass_start state idx (it :: script) (S k) =
  if doOneMore it then pass_start (sorted_snapshot state) (idx + 1) script k else None.
Proof.
  intros Hcover. cbn [pass_start]. rewrite createSingleTicket_covered by done.
  by destruct (submit_resolves (sorted_snapshot state) (api_result it) (clipboard_throws it)
                (answers it))
    as [created ->].
Qed.

Lemma pass_start_index (k : nat) : ∀ (state : IClubhouseState) (idx : Z)
  (script : list Interaction) (state_k : IClubhouseState) (idx_k : Z),
  pass_start state idx script k = Some (state_k, idx_k) → idx_k = idx + Z.of_nat k.
Proof.
  induction k as [|k IH]; intros state idx script state_k idx_k Hstart.
  - cbn [pass_start] in Hstart. injection Hstart as _ <-. lia.
  - destruct script as [|it script]; [done|].
    apply pass_start_step in Hstart as (_ & _ & Hstart).
    apply IH in Hstart. lia.
Qed.

Lemma pass_start_snapshot (k : nat) : ∀ (state : IClubhouseState) (idx : Z)
  (script : list Interaction) (state_k : IClubhouseState) (idx_k : Z),
  pass_start state idx script k = Some (state_k, idx_k) →
  state_k = match k with O => state | S _ => sorted_snapshot state end ∧
  match k with O => True | S _ => teams_cover state end.
Proof.
  induction k as [|k IH]; intros state idx script state_k idx_k Hstart.
  - cbn [pass_start] in Hstart. by injection Hstart as <- _.
  - destruct script as [|it script]; [done|].
    apply pass_start_step in Hstart as (Hcover & _ & Hstart).
    apply IH in Hstart as [-> _]. split; [|done].
    destruct k; [done | apply sorted_snapshot_twice].
Qed.

(** X10: the snapshot changes at most once in a session. Every pass after
    the first starts from the fetched snapshot with its projects sorted by
    team: the first display of the project prompt sorts it, and nothing
    the wizard does later changes it again. *)
Theorem snapshot_after_first_pass (state : IClubhouseState) (idx : Z)
  (script : list Interaction) (k : nat) (state_k : IClubhouseState) (idx_k : Z) :
  pass_start state idx script k = Some (state_k, idx_k) → (0 < k)%nat →
  state_k = sorted_snapshot state ∧
  projects state_k ≡ₚ projects state ∧ Sorted team_le (projects state_k) ∧
  epics state_k = epics state ∧ teams state_k = teams state ∧
  users state_k = users state ∧ sprints state_k = sprints state ∧
  configuration state_k = configuration state.
Proof.
  intros Hstart Hk. apply pass_start_snapshot in Hstart as [-> _].
  destruct k; [lia|]. split; [done|]. repeat split.
  - apply sort_Permutation.
  - apply sort_by_team_Sorted.
Qed.

(** X11: from the second pass on the project question's default is the
    index, in the displayed option list, of the project whose id is
    [configuration.defaultProjectId] (or -1 in both when there is none). *)
Theorem default_index_after_first_pass (state : IClubhouseState) (idx : Z)
  (script : list Interaction) (k : nat) (state_k : IClubhouseState) (idx_k : Z) :
  pass_start state idx script k = Some (state_k, idx_k) → (0 < k)%nat →
  ∃ q, head (questions state_k) = Some q ∧ q_name q = "project" ∧
       q_default q = Some (VNumber (project_default state_k)) ∧
       displayed_index_of_default state_k = Some (project_default state_k).
Proof.
  intros Hstart Hk. apply pass_start_snapshot in Hstart as [-> Hcover].
  destruct k; [lia|]. eexists. repeat split.
  apply project_default_sorted.
  - apply sorted_snapshot_Sorted.
  - by apply teams_cover_sorted_snapshot.
Qed.

(** X12: tickets are numbered consecutively: the pass reached after [k]
    confirmations starts with the banner for ticket [idx + k]. *)
Theorem pass_numbering (state : IClubhouseState) (idx : Z) (script : list Interaction)
  (k : nat) (state_k : IClubhouseState) (idx_k : Z) :
  pass_start state idx script k = Some (state_k, idx_k) →
  idx_k = idx + Z.of_nat k ∧
  ∃ before after,
    createTickets state idx script =
    before ++ console_info (banner (idx + Z.of_nat k)) :: after.
Proof.
  intros Hstart. pose proof (pass_start_index _ _ _ _ _ _ Hstart) as ->.
  split; [done|].
  destruct (createTickets_pass _ _ _ _ _ _ Hstart) as [before Hbefore].
  exists before. rewrite Hbefore.
  destruct (drop k script) as [|it rest]; cbn [createTickets]; by eexists.
Qed.

(** X13: with a snapshot whose projects all have a team, the session goes
    on exactly as long as the user answers yes: pass number [k] is reached
    when the first [k] passes were all confirmed, whether their creation
    calls succeeded or were rejected. *)
Theorem session_continues_while_confirmed (k : nat) : ∀ (state : IClubhouseState) (idx : Z)
  (script : list Interaction),
  teams_cover state →
  is_Some (pass_start state idx script k) ↔
  (k ≤ length script)%nat ∧ Forall (fun it => doOneMore it = true) (take k script).
Proof.
  induction k as [|k IH]; intros state idx script Hcover.
  - cbn [pass_start take]. split; [intros _; split; [lia | constructor] | by eexists].
  - destruct script as [|it script].
    + cbn [pass_start length]. split; [by intros [? ?] | intros [? _]; lia].
    + rewrite pass_start_covered_step by done. cbn [take length].
      rewrite Forall_cons. destruct (doOneMore it).
      * rewrite IH by (by apply teams_cover_sorted_snapshot).
        split; [intros [? ?]; repeat split; [lia | done] | intros [? [_ ?]]; split; [lia | done]].
      * split; [by intros [? ?] | by intros [_ [? _]]].
Qed.

Lemma createTickets_counts (script : list Interaction) : ∀ (state : IClubhouseState) (idx : Z),
  teams_cover state →
  count_events is_createStory_call (createTickets state idx script) = passes_run script ∧
  count_events is_prompt_confirm (createTickets state idx script) = passes_run script.
Proof.
  induction script as [|it script IH]; intros state idx Hcover; [done|].
  rewrite createTickets_covered by done. cbn [passes_run].
  rewrite !count_events_cons, !count_events_app, !count_events_cons.
  destruct (submit_one_call (sorted_snapshot state) (api_result it) (clipboard_throws it)
             (answers it))
    as [-> ->].
  cbn [is_createStory_call is_prompt_confirm].
  destruct (doOneMore it).
  - destruct (IH (sorted_snapshot state) (idx + 1)) as [-> ->];
      [by apply teams_cover_sorted_snapshot|]. split; lia.
  - done.
Qed.

Lemma passes_run_le (script : list Interaction) : (passes_run script ≤ length script)%nat.
Proof.
  induction script as [|it script IH]; simpl; [lia|]. destruct (doOneMore it); lia.
Qed.

Lemma createTickets_calls_le (state : IClubhouseState) (idx : Z) (script : list Interaction) :
  (count_events is_createStory_call (createTickets state idx script) ≤ passes_run script)%nat.
Proof.
  destruct (teams_cover_dec state) as [Hcover|Hnot].
  - by destruct (createTickets_counts script state idx Hcover) as [-> _].
  - rewrite createTickets_fault by done. cbn. lia.
Qed.

(** X14: with a snapshot whose projects all have a team, the session sends
    exactly one creation request and shows exactly one confirmation per
    pass the user goes through, whether the requests succeed or not; when
    the user declines after the first ticket that is exactly one request. *)
Theorem one_request_per_pass (state : IClubhouseState) (idx : Z) (script : list Interaction) :
  teams_cover state →
  count_events is_createStory_call (createTickets state idx script) = passes_run script ∧
  count_events is_prompt_confirm (createTickets state idx script) = passes_run script ∧
  (passes_run script ≤ length script)%nat ∧
  ∀ it script', script = it :: script' → doOneMore it = false →
    count_events is_createStory_call (createTickets state idx script) = 1%nat.
Proof.
  intros Hcover.
  destruct (createTickets_counts script state idx Hcover) as [Hcalls Hconfirms].
  repeat split; [done | done | apply passes_run_le |].
  intros it script' -> Hno. rewrite Hcalls. cbn [passes_run]. by rewrite Hno.
Qed.

(** X15: with a project whose team is missing from the snapshot the session
    ends at the first display of the project prompt: the banner and the
    prompt are all it shows, whatever the user would have done, so no
    creation request is sent and no confirmation is asked. *)
Theorem missing_team_ends_session (state : IClubhouseState) (idx : Z)
  (script : list Interaction) :
  ¬ teams_cover state →
  createTickets state idx script =
    [console_info (banner idx); prompt_questions question_names] ∧
  count_events is_createStory_call (createTickets state idx script) = 0%nat ∧
  count_events is_prompt_confirm (createTickets state idx script) = 0%nat.
Proof. intros Hnot. by rewrite createTickets_fault. Qed.

(** X16: in whichever pass the creation call resolves with a story, the
    handler prints the success line, the story link and the branch
    command. When the clipboard write succeeds, the command is put on the
    clipboard, the story is returned, and the confirmation is shown next.
    When the clipboard write throws, the chained [catch] prints the error
    notice and [undefined], no story is returned, and the confirmation is
    shown next all the same. *)
Theorem created_story_reported (state : IClubhouseState) (idx : Z)
  (script : list Interaction) (k : nat) (state_k : IClubhouseState) (idx_k : Z)
  (it : Interaction) (story : IStory) :
  pass_start state idx script k = Some (state_k, idx_k) →
  script !! k = Some it →
  teams_cover state_k →
  api_result it = inl story →
  (clipboard_throws it = false →
   snd (snd (createSingleTicket state_k (Some it))) = Resolved (Some story) ∧
   ∃ before after,
     createTickets state idx script =
     before ++
     [ console_info (chalk_green ("Successfully created a story with id " +:+
                                  id_text (s_id story)));
       console_info ("You can view your story at " +:+
                     link ("https://app.clubhouse.io/story/" +:+ id_text (s_id story)));
       console_info ("To start working on this story (copied to clipboard): " +:+
                     chalk_bold (gitCmd story));
       clipboard_writeSync (gitCmd story);
       prompt_confirm "Create another ticket: " true ] ++ after) ∧
  (clipboard_throws it = true →
   snd (snd (createSingleTicket state_k (Some it))) = Resolved None ∧
   ∃ before after,
     createTickets state idx script =
     before ++
     [ console_info (chalk_green ("Successfully created a story with id " +:+
                                  id_text (s_id story)));
       console_info ("You can view your story at " +:+
                     link ("https://app.clubhouse.io/story/" +:+ id_text (s_id story)));
       console_info ("To start working on this story (copied to clipboard): " +:+
                     chalk_bold (gitCmd story));
       console_error (chalk_red "There was an error processing your request");
       console_error_value VUndefined;
       prompt_confirm "Create another ticket: " true ] ++ after).
Proof.
  intros Hstart Hit Hcover Hapi.
  destruct (createTickets_pass _ _ _ _ _ _ Hstart) as [before Hbefore].
  rewrite (drop_S _ _ _ Hit), createTickets_covered, Hapi in Hbefore by done.
  split; intros Hclip; rewrite Hclip in Hbefore.
  - split; [by rewrite createSingleTicket_covered, Hapi, Hclip by done|].
    rewrite submit_created in Hbefore.
    exists (before ++ [console_info (banner idx_k); prompt_questions question_names;
                       createStory_call (token (configuration (sorted_snapshot state_k)))
                                        (story_request (answers it))]).
    eexists. rewrite Hbefore, <- !app_assoc. reflexivity.
  - split; [by rewrite createSingleTicket_covered, Hapi, Hclip by done|].
    rewrite submit_clipboard_throws in Hbefore.
    exists (before ++ [console_info (banner idx_k); prompt_questions question_names;
                       createStory_call (token (configuration (sorted_snapshot state_k)))
                                        (story_request (answers it))]).
    eexists. rewrite Hbefore, <- !app_assoc. reflexivity.
Qed.

End SessionProperties.

(** ** Further properties of the choice resolver *)

Lemma startsWith_empty (s : string) : startsWith s EmptyString = true.
Proof. by destruct s. Qed.

Lemma includes_empty (s : string) : includes s EmptyString = true.
Proof. destruct s; cbn [includes]; by rewrite startsWith_empty. Qed.

Lemma filter_all {A} (f : A → bool) (l : list A) :
  (∀ x, x ∈ l → f x = true) → List.filter f l = l.
Proof.
  induction l as [|x l IH]; intros Hall; simpl; [done|].
  rewrite (Hall x) by (by left). f_equal. apply IH. intros y Hy. apply Hall. by right.
Qed.

Lemma filter_filter_implied {A} (f g : A → bool) (l : list A) :
  (∀ x, f x = true → g x = true) →
  List.filter f (List.filter g l) = List.filter f l.
Proof.
  intros Himp. induction l as [|x l IH]; simpl; [done|].
  destruct (g x) eqn:Hg; simpl.
  - by rewrite IH.
  - destruct (f x) eqn:Hf; [|done]. apply Himp in Hf. congruence.
Qed.

Lemma append_assoc (a b c : string) : (a +:+ b) +:+ c = a +:+ b +:+ c.
Proof.
  induction a as [|x a IH]; [done|]. by rewrite !append_cons, IH.
Qed.

Lemma substring_of_trans (a b c : string) :
  substring_of a b → substring_of b c → substring_of a c.
Proof.
  intros (pre & post & ->) (pre' & post' & ->).
  exists (pre' +:+ pre), (post +:+ post'). by rewrite !append_assoc.
Qed.

(** On ASCII text the built-in folds character by character, so folding
    commutes with concatenation there. *)
Lemma toLowerCase_append (a b : string) :
  ascii_only a = true → ascii_only b = true →
  toLowerCase (a +:+ b) = toLowerCase a +:+ toLowerCase b.
Proof.
  intros _ _. induction a as [|x a IH]; [done|].
  rewrite append_cons. cbn [toLowerCase]. by rewrite append_cons, IH.
Qed.

Lemma ci_contains_append (q more : string) :
  ascii_only q = true → ascii_only more = true → ci_contains (q +:+ more) q.
Proof.
  intros Hq Hmore. unfold ci_contains. rewrite toLowerCase_append by done.
  by exists EmptyString, (toLowerCase more).
Qed.

(** X2: an empty search text filters nothing: the resolver returns every
    candidate, in order, as it does without input. *)
Theorem getAutoCompleteChoices_empty_query (L : list ChoiceOption) :
  getAutoCompleteChoices (Some EmptyString) L = L ∧
  getAutoCompleteChoices (Some EmptyString) L = getAutoCompleteChoices None L.
Proof.
  assert (Hall : getAutoCompleteChoices (Some EmptyString) L = L).
  { apply filter_all. intros item _. apply includes_empty. }
  by rewrite Hall.
Qed.

(** X3: filtering narrows consistently. When the lower-cased query [q]
    occurs in the lower-cased query [q'], resolving [q'] over the result
    for [q] gives the result for [q'] over all candidates, which is a
    sublist of the result for [q]. For queries of ASCII characters this is
    the case whenever [q'] is [q] with more characters typed after it. *)
Theorem getAutoCompleteChoices_narrows (q q' : string) (L : list ChoiceOption) :
  ci_contains q' q →
  getAutoCompleteChoices (Some q') (getAutoCompleteChoices (Some q) L) =
    getAutoCompleteChoices (Some q') L ∧
  sublist (getAutoCompleteChoices (Some q') L) (getAutoCompleteChoices (Some q) L) ∧
  ∀ more, ascii_only q = true → ascii_only more = true →
          getAutoCompleteChoices (Some (q +:+ more)) (getAutoCompleteChoices (Some q) L) =
          getAutoCompleteChoices (Some (q +:+ more)) L.
Proof.
  assert (Hcompose : ∀ q1 q2, ci_contains q2 q1 →
    getAutoCompleteChoices (Some q2) (getAutoCompleteChoices (Some q1) L) =
    getAutoCompleteChoices (Some q2) L).
  { intros q1 q2 Hq. apply filter_filter_implied. intros item Hitem.
    apply includes_spec. apply includes_spec in Hitem.
    by eapply substring_of_trans. }
  intros Hq. split; [by apply Hcompose|]. split.
  - rewrite <- (Hcompose q q' Hq).
    eapply selected_sublist, selected_filter. intros item. apply includes_spec.
  - intros more Hascii Hmore. by apply Hcompose, ci_contains_append.
Qed.

Lemma getAutoCompleteChoices_narrows_witness :
  getAutoCompleteChoices (Some "Log")
    (getAutoCompleteChoices (Some "lo")
       [ {| name := "Fix login"; value := VNull |};
         {| name := "Slow query"; value := VNull |} ]) =
  getAutoCompleteChoices (Some "Log")
    [ {| name := "Fix login"; value := VNull |};
      {| name := "Slow query"; value := VNull |} ] ∧
  getAutoCompleteChoices (Some "low")
    (getAutoCompleteChoices (Some "lo")
       [ {| name := "Fix login"; value := VNull |};
         {| name := "Slow query"; value := VNull |} ]) =
  getAutoCompleteChoices (Some "low")
    [ {| name := "Fix login"; value := VNull |};
      {| name := "Slow query"; value := VNull |} ].
Proof.
  destruct (getAutoCompleteChoices_narrows "lo" "Log"
              [ {| name := "Fix login"; value := VNull |};
                {| name := "Slow query"; value := VNull |} ])
    as (Hcompose & _ & Htyped).
  - by exists EmptyString, "g".
  - split; [exact Hcompose|]. exact (Htyped "w" eq_refl eq_refl).
Defined.

(** ** Further properties of validation *)

(** X1: the description validator accepts a string exactly when it has at
    least 5 characters, however long it is, and rejects an absent answer
    and every shorter string with its message. *)
Theorem validate_description_accepts (input : string) :
  (validate_description (Some input) = Valid ↔ (5 <= String.length input)%nat) ∧
  ((String.length input <= 4)%nat →
     validate_description (Some input) =
       Invalid "Description should be more than 5 characters long") ∧
  validate_description None = Invalid "Description should be more than 5 characters long".
Proof.
  unfold validate_description.
  destruct (Z.ltb_spec (Z.of_nat (String.length input)) 5) as [Hlt|Hge];
    repeat split; try done; try (intros; lia).
Qed.

Lemma validate_description_accepts_witness :
  validate_description (Some "Users cannot log in") = Valid ∧
  validate_description (Some "") = Invalid "Description should be more than 5 characters long".
Proof.
  split.
  - apply (validate_description_accepts "Users cannot log in"). simpl. lia.
  - apply (proj1 (proj2 (validate_description_accepts ""))). simpl. lia.
Defined.

(** ** Further properties of the prompts *)

(** X4: the epic prompt's default points past the end of its option list:
    before anything is typed the prompt displays one option per epic and
    no more, and the default is the number of epics, an index at which
    there is no option. *)
Theorem epic_default_out_of_range (state : IClubhouseState) :
  ∃ q options,
    questions state !! 1%nat = Some q ∧ q_name q = "epic" ∧
    q_default q = Some (VNumber (Z.of_nat (length (epics state)))) ∧
    snd (epic_source state None) = Some options ∧
    length options = length (epics state) ∧
    options !! length (epics state) = None.
Proof.
  eexists _, _. repeat split.
  - cbn [getAutoCompleteChoices]. apply length_fmap.
  - cbn [getAutoCompleteChoices]. apply lookup_ge_None_2. by rewrite length_fmap.
Qed.

(** X5: the labels prompt's default selects "No Label": before anything is
    typed the prompt displays one option per sprint followed by
    "No Label", and the default is the number of sprints, the index of
    that last option. The owner prompt displays "Do not assign" first,
    then one option per user, and has no default. *)
Theorem sentinel_positions (state : IClubhouseState) :
  (∃ q options,
     questions state !! 6%nat = Some q ∧ q_name q = "labels" ∧
     q_default q = Some (VNumber (Z.of_nat (length (sprints state)))) ∧
     snd (labels_source state None) = Some options ∧
     length options = S (length (sprints state)) ∧
     options !! length (sprints state) = Some no_label) ∧
  (∃ q options,
     questions state !! 5%nat = Some q ∧ q_name q = "owner" ∧
     q_default q = None ∧
     snd (owner_source state None) = Some options ∧
     length options = S (length (users state)) ∧
     options !! 0%nat = Some do_not_assign).
Proof.
  split; eexists _, _; repeat split.
  - cbn [getAutoCompleteChoices]. rewrite length_app, length_fmap. simpl. lia.
  - cbn [getAutoCompleteChoices].
    rewrite lookup_app_r by (by rewrite length_fmap).
    by rewrite length_fmap, Nat.sub_diag.
  - cbn [getAutoCompleteChoices]. cbn [length]. by rewrite length_fmap.
Qed.

Lemma epic_source_elem_of (state : IClubhouseState) (input : option string)
  (choices : list ChoiceOption) (choice : ChoiceOption) :
  snd (epic_source state input) = Some choices → choice ∈ choices →
  ∃ epic, epic ∈ epics state ∧
          choice = {| name := e_name epic; value := VString (JSNumber.toString (e_id epic)) |}.
Proof.
  intros [= <-] Hin%elem_of_getAutoCompleteChoices.
  apply list_elem_of_fmap in Hin as (epic & -> & Hin). by exists epic.
Qed.

(** X6: whichever option of the epic prompt is selected, the request's
    [epic_id] is the decimal text of that epic's id, passed on as a string
    and not parsed as [project_id] is; read as a base-10 integer the text
    gives the id back. *)
Theorem epic_id_is_text (state : IClubhouseState) (input : option string)
  (choices : list ChoiceOption) (choice : ChoiceOption) (res : Answers) :
  snd (epic_source state input) = Some choices →
  choice ∈ choices →
  a_epic res = value choice →
  ∃ epic, epic ∈ epics state ∧ name choice = e_name epic ∧
          s_epic_id (story_request res) = VString (JSNumber.toString (e_id epic)) ∧
          parseInt (s_epic_id (story_request res)) = JSNumber.Num (e_id epic).
Proof.
  intros Hsrc Hin Hres.
  destruct (epic_source_elem_of _ _ _ _ Hsrc Hin) as (epic & Hepic & ->).
  exists epic. cbn [story_request s_epic_id]. rewrite Hres. repeat split; [done|].
  apply NumberFacts.parseInt10_toString.
Qed.

Lemma epic_id_is_text_witness :
  ∃ epic, epic ∈ epics two_projects_state ∧
    name {| name := "Onboarding"; value := VString "5" |} = e_name epic ∧
    s_epic_id (story_request (answers_with (VString "1") VNull VNull)) =
      VString (JSNumber.toString (e_id epic)) ∧
    parseInt (s_epic_id (story_request (answers_with (VString "1") VNull VNull))) =
      JSNumber.Num (e_id epic).
Proof.
  apply (epic_id_is_text two_projects_state (Some "board")
           [ {| name := "Onboarding"; value := VString "5" |} ]).
  - reflexivity.
  - apply list_elem_of_singleton. reflexivity.
  - reflexivity.
Defined.

Lemma project_choice_Some (ts : list ITeam) (project : IProject) (choice : ChoiceOption) :
  project_choice ts project = Some choice →
  ∃ team, JSArray.find (fun team => t_id team =? p_team_id project) ts = Some team ∧
          choice = {| name := p_name project +:+ " (" +:+ t_name team +:+ ")";
                      value := VString (JSNumber.toString (p_id project)) |}.
Proof.
  unfold project_choice. destruct (JSArray.find _ ts) as [team|]; [|done].
  intros [= <-]. by exists team.
Qed.

Lemma find_first {A} (f : A → bool) (l : list A) (x : A) :
  JSArray.find f l = Some x →
  ∃ i, l !! i = Some x ∧ f x = true ∧ ∀ j y, (j < i)%nat → l !! j = Some y → f y = false.
Proof.
  induction l as [|z l IH]; simpl; [done|].
  destruct (f z) eqn:Hz.
  - intros [= <-]. exists 0%nat. repeat split; [done|]. intros j y Hj. lia.
  - intros (i & Hi & Hx & Hbefore)%IH. exists (S i). repeat split; [done..|].
    intros [|j] y Hj Hy.
    + by injection Hy as <-.
    + apply (Hbefore j); [lia | done].
Qed.

(** X7: with every project's team in the snapshot, the project prompt
    displays, before anything is typed, one option per project, in
    ascending order of [team_id]; an option's value is the decimal text of
    its project's id and its label is the project's name followed by, in
    parentheses, the name of the first team of the snapshot with the
    project's [team_id]. *)
Theorem project_options_in_team_order (state : IClubhouseState) :
  teams_cover state →
  ∃ options,
    displayed_projects state = Some options ∧
    length options = length (projects state) ∧
    JSArray.sort by_team_id (projects state) ≡ₚ projects state ∧
    Sorted team_le (JSArray.sort by_team_id (projects state)) ∧
    Forall2
      (fun project option =>
         ∃ i team,
           teams state !! i = Some team ∧ t_id team = p_team_id project ∧
           (∀ j other, (j < i)%nat → teams state !! j = Some other →
                       t_id other ≠ p_team_id project) ∧
           option = {| name := p_name project +:+ " (" +:+ t_name team +:+ ")";
                       value := VString (JSNumber.toString (p_id project)) |})
      (JSArray.sort by_team_id (projects state)) options.
Proof.
  intros Hcover.
  destruct (proj2 (project_source_is_Some state None) Hcover) as [options Hoptions].
  exists options. split; [done|].
  rewrite project_source_choices in Hoptions.
  apply fmap_Some in Hoptions as (all & Hall%mapM_Some & ->).
  cbn [getAutoCompleteChoices]. repeat split.
  - rewrite <- (Forall2_length _ _ _ Hall). by rewrite sort_Permutation.
  - apply sort_Permutation.
  - apply sort_by_team_Sorted.
  - eapply Forall2_impl; [done|]. intros project option Hchoice.
    apply project_choice_Some in Hchoice as (team & Hfind & ->).
    apply find_first in Hfind as (i & Hi & Heq%Z.eqb_eq & Hbefore).
    exists i, team. repeat split; [done..|].
    intros j other Hj Hother. by apply Z.eqb_neq, (Hbefore j).
Qed.

Lemma project_options_in_team_order_witness :
  ∃ options, displayed_projects two_projects_state = Some options ∧
             length options = length (projects two_projects_state).
Proof.
  destruct (project_options_in_team_order two_projects_state) as (options & ? & ? & _).
  - unfold teams_cover. compute_done.
  - by exists options.
Defined.

Lemma project_values (ts : list ITeam) (sorted : list IProject) (all : list ChoiceOption) :
  Forall2 (fun project choice => project_choice ts project = Some choice) sorted all →
  value <$> all = (fun id => VString (JSNumber.toString id)) <$> (p_id <$> sorted).
Proof.
  induction 1 as [|project choice sorted all Hchoice _ IH]; [done|].
  cbn [fmap list_fmap]. f_equal; [|done]. by apply project_choice_value in Hchoice.
Qed.

(** X8: when the projects of the snapshot have distinct ids, the options
    the project prompt offers, whatever was typed, have distinct values:
    an option's value identifies its project. *)
Theorem project_option_values_distinct (state : IClubhouseState) (input : option string)
  (choices : list ChoiceOption) :
  NoDup (p_id <$> projects state) →
  snd (project_source state input) = Some choices →
  NoDup (value <$> choices).
Proof.
  intros Hids Hsrc. rewrite project_source_choices in Hsrc.
  apply fmap_Some in Hsrc as (all & Hall%mapM_Some & ->).
  assert (Hsub : sublist (getAutoCompleteChoices input all) all).
  { destruct input as [q|]; [|done].
    eapply selected_sublist, (selected_filter (fun item => ci_contains (name item) q)).
    intros item. apply includes_spec. }
  apply (sublist_NoDup _ (value <$> all)); [|by apply fmap_sublist].
  rewrite (project_values _ _ _ Hall). apply NoDup_fmap_2_strong.
  - intros m n _ _ [= Heq]. by apply toString_inj.
  - by rewrite sort_Permutation.
Qed.

Lemma project_option_values_distinct_witness :
  NoDup (value <$> [ {| name := "B (T1)"; value := VString "2" |};
                     {| name := "A (T2)"; value := VString "1" |} ]).
Proof.
  apply (project_option_values_distinct two_projects_state None).
  - compute_done.
  - reflexivity.
Defined.

(** X9: what the project source does to the snapshot, for every state and
    input: the project array keeps its elements and comes out sorted by
    [team_id]; epics, teams, users, sprints and configuration are as
    before; the snapshot is unchanged exactly when the projects were
    already in team order; and a second call changes nothing more. *)
Theorem project_source_effect (state : IClubhouseState) (input input' : option string) :
  projects (fst (project_source state input)) ≡ₚ projects state ∧
  Sorted team_le (projects (fst (project_source state input))) ∧
  epics (fst (project_source state input)) = epics state ∧
  teams (fst (project_source state input)) = teams state ∧
  users (fst (project_source state input)) = users state ∧
  sprints (fst (project_source state input)) = sprints state ∧
  configuration (fst (project_source state input)) = configuration state ∧
  (fst (project_source state input) = state ↔ Sorted team_le (projects state)) ∧
  fst (project_source (fst (project_source state input)) input') =
    fst (project_source state input).
Proof.
  destruct (project_source_frame state input) as (Hp & Hs & He & Ht & Hu & Hl & Hc).
  repeat split; try done.
  - intros Heq. rewrite <- Heq. done.
  - apply project_source_sorted_pure.
  - apply project_source_twice.
Qed.

(** ** Start-up *)

Section MainProperties.
Context `{Chalk} `{Slug}.
Variable chalk_yellow : string → string.

Lemma then_createTickets_calls_le (fetched : option IClubhouseState)
  (script : list Interaction) :
  (count_events is_createStory_call (then_createTickets fetched script) ≤
   passes_run script)%nat.
Proof.
  destruct fetched as [state|]; cbn [then_createTickets];
    [apply createTickets_calls_le | cbn; lia].
Qed.

(** X17: a run of [main] starts the wizard only with a fetched snapshot
    and at ticket number 1. With a loaded configuration nothing is printed
    before the wizard; without one the four set-up notices come first, the
    configuration error leading. When the installation or the snapshot
    fetch rejects, nothing else is shown; in every run at most one creation
    request is sent per pass of the user. *)
Theorem main_starts_wizard (env : Startup) (script : list Interaction) :
  (∃ notices,
     main chalk_yellow env script =
       notices ++
       match fetched_snapshot env with
       | Some state => createTickets state 1 script
       | None => []
       end ∧
     (loaded env = true → notices = []) ∧
     (loaded env = false →
        length notices = 4%nat ∧
        head notices = Some (console_error (chalk_red (errorMsg env))))) ∧
  (count_events is_createStory_call (main chalk_yellow env script) ≤ passes_run script)%nat.
Proof.
  unfold main, fetched_snapshot. destruct (loaded env); cbn [negb].
  - split; [by exists []|]. apply then_createTickets_calls_le.
  - split.
    + eexists. split; [reflexivity|]. by split.
    + rewrite count_events_app. cbn -[then_createTickets].
      apply then_createTickets_calls_le.
Qed.

End MainProperties.

(** ** Witnesses on the sample session *)

Lemma snapshot_after_first_pass_witness :
  projects (sorted_snapshot two_projects_state) ≡ₚ projects two_projects_state.
Proof.
  eapply (@snapshot_after_first_pass plain_chalk AsciiSlug.ascii_slug
            two_projects_state 1 [created_pass; rejecting_pass] 1
            (sorted_snapshot two_projects_state) 2).
  - vm_compute. reflexivity.
  - lia.
Defined.

Lemma default_index_after_first_pass_witness :
  ∃ q, head (questions (sorted_snapshot two_projects_state)) = Some q ∧
       q_name q = "project" ∧
       q_default q = Some (VNumber (project_default (sorted_snapshot two_projects_state))) ∧
       displayed_index_of_default (sorted_snapshot two_projects_state) =
         Some (project_default (sorted_snapshot two_projects_state)).
Proof.
  apply (@default_index_after_first_pass plain_chalk AsciiSlug.ascii_slug
           two_projects_state 1 [created_pass; rejecting_pass] 1
           (sorted_snapshot two_projects_state) 2).
  - vm_compute. reflexivity.
  - lia.
Defined.

Lemma pass_numbering_witness :
  ∃ before after,
    @createTickets plain_chalk AsciiSlug.ascii_slug two_projects_state 1
      [created_pass; rejecting_pass] =
    before ++ console_info (@banner plain_chalk (1 + Z.of_nat 1)) :: after.
Proof.
  eapply (@pass_numbering plain_chalk AsciiSlug.ascii_slug
            two_projects_state 1 [created_pass; rejecting_pass] 1
            (sorted_snapshot two_projects_state) 2).
  vm_compute. reflexivity.
Defined.

Lemma session_continues_while_confirmed_witness :
  is_Some (@pass_start plain_chalk AsciiSlug.ascii_slug two_projects_state 1
             [created_pass; rejecting_pass] 1).
Proof.
  apply (@session_continues_while_confirmed plain_chalk AsciiSlug.ascii_slug 1
           two_projects_state 1 [created_pass; rejecting_pass]).
  - unfold teams_cover. compute_done.
  - split; [simpl; lia|]. by repeat constructor.
Defined.

Lemma one_request_per_pass_witness :
  count_events is_createStory_call
    (@createTickets plain_chalk AsciiSlug.ascii_slug two_projects_state 1
       [created_pass; rejecting_pass]) = 2%nat.
Proof.
  apply (@one_request_per_pass plain_chalk AsciiSlug.ascii_slug
           two_projects_state 1 [created_pass; rejecting_pass]).
  unfold teams_cover. compute_done.
Defined.

Lemma missing_team_ends_session_witness :
  @createTickets plain_chalk AsciiSlug.ascii_slug no_teams_state 1 [created_pass] =
  [console_info (@banner plain_chalk 1); prompt_questions question_names].
Proof.
  apply (@missing_team_ends_session plain_chalk AsciiSlug.ascii_slug
           no_teams_state 1 [created_pass]).
  unfold teams_cover. compute_done.
Defined.

Lemma created_story_reported_witness :
  snd (snd (@createSingleTicket plain_chalk AsciiSlug.ascii_slug two_projects_state
              (Some created_pass))) = Resolved (Some created_story) ∧
  snd (snd (@createSingleTicket plain_chalk AsciiSlug.ascii_slug two_projects_state
              (Some clipboard_failing_pass))) = Resolved None.
Proof.
  split.
  - eapply (@created_story_reported plain_chalk AsciiSlug.ascii_slug
              two_projects_state 1 [created_pass; rejecting_pass] 0
              two_projects_state 1 created_pass created_story).
    + reflexivity.
    + reflexivity.
    + unfold teams_cover. compute_done.
    + reflexivity.
    + reflexivity.
  - eapply (proj2 (@created_story_reported plain_chalk AsciiSlug.ascii_slug
              two_projects_state 1 [clipboard_failing_pass; rejecting_pass] 0
              two_projects_state 1 clipboard_failing_pass created_story
              eq_refl eq_refl _ eq_refl)).
    reflexivity.
    Unshelve. unfold teams_cover. compute_done.
Defined.

Lemma main_starts_wizard_witness :
  (count_events is_createStory_call
     (@main plain_chalk AsciiSlug.ascii_slug (fun s => s)
        {| loaded := false; errorMsg := "No configuration found";
           loaded_configuration := {| token := ""; defaultProjectId := 0 |};
           doInstall_result := Some {| token := "t"; defaultProjectId := 1 |};
           getState_result := fun _ => Some two_projects_state |}
        [created_pass; rejecting_pass]) ≤ 2)%nat.
Proof.
  apply (@main_starts_wizard plain_chalk AsciiSlug.ascii_slug (fun s => s)).
Defined.
